(** * obsidian-chessboard: the notation parser of [src/main.ts]

    A shallow embedding of [ObsidianChess.parseCode], of the settings
    fallback of [ObsidianChess.onload] and of the code block processor
    that [ObsidianChess.draw_chessboard] returns, with the properties of
    the repository's specification stated against it.

    JavaScript strings are sequences of UTF-16 code units; they are modelled
    as lists of code units ([N]), so that [trim] can use the whole
    ECMAScript white-space table.  A thrown exception is the [Throw] case of
    a small error monad. *)

From Stdlib Require Import NArith ZArith List Bool String Ascii.
Import ListNotations.

(* ------------------------------------------------------------------ *)
(** ** JavaScript strings *)

Module JS.

Definition code_unit := N.
Definition jsstring := list code_unit.

(** A string literal of the source (all of them are ASCII). *)
Definition lit (s : string) : jsstring :=
  map N_of_ascii (list_ascii_of_string s).
Arguments lit : simpl never.

Fixpoint eqb (s t : jsstring) : bool :=
  match s, t with
  | [], [] => true
  | c :: s', d :: t' => N.eqb c d && eqb s' t'
  | _, _ => false
  end.

(** [s.startsWith(p)] *)
Fixpoint startsWith (p s : jsstring) : bool :=
  match p, s with
  | [], _ => true
  | _ :: _, [] => false
  | c :: p', d :: s' => N.eqb c d && startsWith p' s'
  end.

(** [s.replace(pat, rep)] for a string pattern: the first occurrence of
    [pat] in [s], scanning from the left, is replaced by [rep] (the
    replacement strings of the source contain no [$] pattern). *)
Fixpoint replace (pat rep s : jsstring) : jsstring :=
  if startsWith pat s then rep ++ skipn (List.length pat) s
  else match s with
       | [] => []
       | c :: s' => c :: replace pat rep s'
       end.

(** [s.substring(n)] *)
Definition substring (n : nat) (s : jsstring) : jsstring := skipn n s.

(** ECMAScript [WhiteSpace] and [LineTerminator] code points, the ones
    [String.prototype.trim] strips: TAB, LF, VT, FF, CR, SP, NBSP, the
    Unicode space separators, LS, PS and the byte order mark. *)
Definition is_white_space (c : code_unit) : bool :=
  ((9 <=? c) && (c <=? 13) || (c =? 32) || (c =? 160) || (c =? 5760)
   || (8192 <=? c) && (c <=? 8202) || (c =? 8232) || (c =? 8233)
   || (c =? 8239) || (c =? 8287) || (c =? 12288) || (c =? 65279))%N.

Fixpoint trimStart (s : jsstring) : jsstring :=
  match s with
  | [] => []
  | c :: s' => if is_white_space c then trimStart s' else s
  end.

Definition trimEnd (s : jsstring) : jsstring := rev (trimStart (rev s)).

(** [s.trim()] *)
Definition trim (s : jsstring) : jsstring := trimEnd (trimStart s).

(** Prepend a code unit to the first piece of a split. *)
Definition cons_first (c : code_unit) (parts : list jsstring) : list jsstring :=
  match parts with
  | [] => [[c]]
  | p :: ps => (c :: p) :: ps
  end.

(** [s.split(sep)] for a separator of one code unit: every occurrence
    separates, empty pieces are kept, and the empty string gives [[""]]. *)
Fixpoint split (sep : code_unit) (s : jsstring) : list jsstring :=
  match s with
  | [] => [[]]
  | c :: s' => if N.eqb c sep then [] :: split sep s'
               else cons_first c (split sep s')
  end.

Definition LF : code_unit := 10%N.
Definition CR : code_unit := 13%N.

(** [s.split(/\r?\n/)]: a line feed, together with a carriage return
    directly before it, separates; a carriage return alone does not. *)
Fixpoint split_lines (s : jsstring) : list jsstring :=
  match s with
  | [] => [[]]
  | c :: s' =>
      if N.eqb c LF then [] :: split_lines s'
      else
        match s' with
        | d :: s'' =>
            if N.eqb c CR && N.eqb d LF then [] :: split_lines s''
            else cons_first c (split_lines s')
        | [] => cons_first c (split_lines s')
        end
  end.

End JS.
Import JS.

(* ------------------------------------------------------------------ *)
(** ** Exceptions *)

(** What a [throw] carries: [Error(message)], or the [TypeError] of a
    method call on [undefined]. *)
Inductive exn : Type :=
| Error (message : jsstring)
| TypeError.

Inductive result (A : Type) : Type :=
| Ok (a : A)
| Throw (e : exn).
Arguments Ok {A} a.
Arguments Throw {A} e.

Definition bind {A B : Type} (r : result A) (k : A -> result B) : result B :=
  match r with
  | Ok a => k a
  | Throw e => Throw e
  end.

Notation "x <- r ;; k" := (bind r (fun x => k))
  (at level 61, r at next level, right associativity).
Notation "' p <- r ;; k" := (bind r (fun p => k))
  (at level 61, p pattern, r at next level, right associativity).

(** [for (let x of xs) body], the body threading the loop's variables and
    possibly throwing. *)
Fixpoint for_of {A S : Type} (body : S -> A -> result S) (xs : list A) (s : S)
  : result S :=
  match xs with
  | [] => Ok s
  | x :: xs' => s' <- body s x ;; for_of body xs' s'
  end.

(* ------------------------------------------------------------------ *)
(** ** The parsed model *)

(** [Highlight | ArrowAnnotation]; the [type] tag is the constructor.  A
    field that destructuring leaves [undefined] is [None]. *)
Inductive Annotation : Type :=
| Highlight (square : jsstring)
| ArrowAnnotation (start end_ : option jsstring).

Record ParsedChessCode : Type := mkParsed {
  fen : jsstring;
  annotations : list Annotation;
  orientation : jsstring
}.

Definition white : jsstring := lit "white".
Definition black : jsstring := lit "black".

Definition SPACE : code_unit := 32%N.
Definition DASH : code_unit := 45%N.

Definition NL : jsstring := [LF].

(* ------------------------------------------------------------------ *)
(** ** [ObsidianChess.parseCode] *)

(** The body of the inner loop over the tokens of an annotations line:
    [annotations.push(...)] appends at the end. *)
Definition push_annotation (annotations : list Annotation) (annotation : jsstring)
  : list Annotation :=
  if startsWith (lit "H") annotation then
    annotations ++ [Highlight (substring 1 annotation)]
  else if startsWith (lit "A") annotation then
    let parts := split DASH (substring 1 annotation) in
    annotations ++ [ArrowAnnotation (nth_error parts 0) (nth_error parts 1)]
  else annotations.

(** The variables the outer loop updates. *)
Definition loop_vars : Type := (jsstring * list Annotation)%type.

(** The body of the outer loop, for one line after the first.  The source
    reassigns [line] in the orientation branch, and the annotations test
    reads the reassigned value. *)
Definition parse_line (vars : loop_vars) (line : jsstring) : result loop_vars :=
  let '(orientation, annotations) := vars in
  if eqb (trim line) (lit "") then Ok vars
  else
    '(line, orientation) <-
      (if startsWith (lit "orientation: ") line then
         let line := replace (lit "orientation: ") (lit "") line in
         let line := trim line in
         if negb (eqb line white) && negb (eqb line black) then
           Throw (Error (lit "Unknown orientation " ++ orientation))
         else Ok (line, line)
       else Ok (line, orientation)) ;;
    let annotations :=
      if startsWith (lit "annotations: ") line then
        let line := replace (lit "annotations: ") (lit "") line in
        let partial_annotations := split SPACE line in
        fold_left push_annotation partial_annotations annotations
      else annotations in
    Ok (orientation, annotations).

(** [lines.splice(1)]: the elements from index 1 on. *)
Definition splice1 (lines : list jsstring) : list jsstring := skipn 1 lines.

Definition parseCode (input : jsstring) : result ParsedChessCode :=
  let lines := split_lines input in
  match nth_error lines 0 with
  | None => Throw TypeError
  | Some fen =>
      let fen :=
        if startsWith (lit "fen: ") fen then replace (lit "fen: ") (lit "") fen
        else fen in
      '(orientation, annotations) <- for_of parse_line (splice1 lines) (white, []) ;;
      Ok (mkParsed fen annotations orientation)
  end.

(* ------------------------------------------------------------------ *)
(** ** Settings and the code block processor *)

(** [ObsidianChessSettings]; [orientation] is the field of
    [SVGChessboardOptions] that the code block processor assigns, absent
    from the object literal of [onload]. *)
Record ObsidianChessSettings : Type := mkSettings {
  whiteSquareColor : jsstring;
  blackSquareColor : jsstring;
  boardWidthPx : Z;
  setting_orientation : option jsstring
}.

(** What [loadData()] resolves to: the parsed [data.json], or [null] or
    [undefined] when there is none. *)
Inductive loaded_data : Type :=
| LUndefined
| LNull
| LBool (b : bool)
| LNumber (n : Z)
| LString (s : jsstring)
| LSettings (o : ObsidianChessSettings).

(** JavaScript truthiness, which [||] tests. *)
Definition truthy (v : loaded_data) : bool :=
  match v with
  | LUndefined | LNull => false
  | LBool b => b
  | LNumber n => negb (Z.eqb n 0)
  | LString s => negb (eqb s (lit ""))
  | LSettings _ => true
  end.

Definition default_settings : ObsidianChessSettings :=
  mkSettings (lit "#f0d9b5") (lit "#b58862") 320 None.

(** [this.setting = (await this.loadData()) || { ... }] of [onload]. *)
Definition onload_setting (loaded : loaded_data) : loaded_data :=
  if truthy loaded then loaded else LSettings default_settings.

(** The first two statements of the closure [draw_chessboard] returns:
    parse the source, then store the parsed orientation in the plugin's
    settings.  The result is the parsed code and the settings after the
    assignment; board construction and the DOM calls that follow do not
    reach back into the parser. *)
Definition draw_chessboard_parse (setting : ObsidianChessSettings) (source : jsstring)
  : result (ParsedChessCode * ObsidianChessSettings) :=
  parsedCode <- parseCode source ;;
  Ok (parsedCode,
      mkSettings (whiteSquareColor setting) (blackSquareColor setting)
                 (boardWidthPx setting) (Some (orientation parsedCode))).

(* ------------------------------------------------------------------ *)
(** ** The vocabulary of the specification

    These definitions follow the wording of the specification; the theorems
    below compare them with the parser above. *)

(** The position line and the directive lines of an input. *)
Definition first_line (input : jsstring) : jsstring :=
  hd (lit "") (split_lines input).

Definition directive_lines (input : jsstring) : list jsstring :=
  tl (split_lines input).

Definition strip (prefix line : jsstring) : jsstring :=
  skipn (List.length prefix) line.

(** The position line with the literal prefix removed, when it has it. *)
Definition position_text (line : jsstring) : jsstring :=
  if startsWith (lit "fen: ") line then strip (lit "fen: ") line else line.

Definition is_orientation_line (line : jsstring) : bool :=
  startsWith (lit "orientation: ") line.

Definition is_annotations_line (line : jsstring) : bool :=
  startsWith (lit "annotations: ") line.

(** The remainder of an orientation line, prefix stripped, then trimmed. *)
Definition orientation_value (line : jsstring) : jsstring :=
  trim (strip (lit "orientation: ") line).

Definition valid_orientation (v : jsstring) : bool :=
  eqb v white || eqb v black.

Definition bad_orientation_line (line : jsstring) : bool :=
  is_orientation_line line && negb (valid_orientation (orientation_value line)).

(** The values of the orientation lines, in the order of the lines. *)
Definition orientation_values (lines : list jsstring) : list jsstring :=
  map orientation_value (filter is_orientation_line lines).

(** The tokens of an annotations line. *)
Definition tokens (line : jsstring) : list jsstring :=
  split SPACE (strip (lit "annotations: ") line).

(** The text of [s] before its first [c] (all of [s] when there is none),
    and the text after its first [c] (nothing when there is none). *)
Fixpoint before_first (c : code_unit) (s : jsstring) : jsstring :=
  match s with
  | [] => []
  | d :: s' => if N.eqb d c then [] else d :: before_first c s'
  end.

Fixpoint after_first (c : code_unit) (s : jsstring) : option jsstring :=
  match s with
  | [] => None
  | d :: s' => if N.eqb d c then Some s' else after_first c s'
  end.

(** The annotation a token stands for, if any.  The end of an arrow is
    the text between the first dash and the next one. *)
Definition token_annotation (token : jsstring) : option Annotation :=
  match token with
  | [] => None
  | c :: rest =>
      if N.eqb c 72 (* H *) then Some (Highlight rest)
      else if N.eqb c 65 (* A *) then
        Some (ArrowAnnotation (Some (before_first DASH rest))
                (option_map (before_first DASH) (after_first DASH rest)))
      else None
  end.

Definition option_list {A : Type} (o : option A) : list A :=
  match o with
  | Some a => [a]
  | None => []
  end.

(** The annotations of one line, left to right, and of a block, line by
    line: encounter order. *)
Definition line_annotations (line : jsstring) : list Annotation :=
  if is_annotations_line line then
    flat_map (fun token => option_list (token_annotation token)) (tokens line)
  else [].

Definition encounter_order (lines : list jsstring) : list Annotation :=
  flat_map line_annotations lines.

(** [s.includes(pat)] *)
Fixpoint includes (pat s : jsstring) : bool :=
  startsWith pat s ||
  match s with
  | [] => false
  | _ :: s' => includes pat s'
  end.

(* ------------------------------------------------------------------ *)
(** ** Blocks written line by line *)

(** [parts.join(sep)] *)
Fixpoint join (sep : jsstring) (parts : list jsstring) : jsstring :=
  match parts with
  | [] => []
  | [p] => p
  | p :: ps => p ++ sep ++ join sep ps
  end.

Definition CRLF : jsstring := [CR; LF].

(** A line as an editor stores it: no line feed inside, and no carriage
    return at its end. *)
Definition ends_with_CR (line : jsstring) : bool :=
  N.eqb (last line 0%N) CR.

Definition no_line_feed (line : jsstring) : bool :=
  forallb (fun c => negb (N.eqb c LF)) line.

Definition plain_line (line : jsstring) : bool :=
  no_line_feed line && negb (ends_with_CR line).

Definition is_directive_line (line : jsstring) : bool :=
  is_orientation_line line || is_annotations_line line.

(** The strings an annotation carries. *)
Definition texts (a : Annotation) : list jsstring :=
  match a with
  | Highlight square => [square]
  | ArrowAnnotation start end_ => option_list start ++ option_list end_
  end.

(* ------------------------------------------------------------------ *)
(** ** The notation, written *)

(** A parsed block written in the notation [parseCode] reads: the
    position line with its prefix, one orientation line, one annotations
    line with [H<square>] and [A<start>-<end>] tokens. *)
Definition show_annotation (a : Annotation) : jsstring :=
  match a with
  | Highlight square => lit "H" ++ square
  | ArrowAnnotation start end_ =>
      lit "A"
      ++ match start with
         | Some s => s
         | None => []
         end
      ++ match end_ with
         | Some e => lit "-" ++ e
         | None => []
         end
  end.

Definition show_block (r : ParsedChessCode) : jsstring :=
  join NL [lit "fen: " ++ fen r;
           lit "orientation: " ++ orientation r;
           lit "annotations: "
           ++ join [SPACE] (map show_annotation (annotations r))].

(** A text without any of the code units [stops]. *)
Definition free_of (stops : list code_unit) (t : jsstring) : bool :=
  forallb (fun c => negb (existsb (N.eqb c) stops)) t.

(** The parsed blocks the notation can express: annotation texts
    without space or line feed, arrows with a start and without dash in
    start and end, a position text that is one line, and one of the two
    orientations. *)
Definition writable_annotation (a : Annotation) : bool :=
  match a with
  | Highlight square => free_of [SPACE; LF] square
  | ArrowAnnotation (Some s) None => free_of [SPACE; LF; DASH] s
  | ArrowAnnotation (Some s) (Some e) =>
      free_of [SPACE; LF; DASH] s && free_of [SPACE; LF; DASH] e
  | ArrowAnnotation None _ => false
  end.

Definition writable (r : ParsedChessCode) : bool :=
  plain_line (fen r) && valid_orientation (orientation r)
  && forallb writable_annotation (annotations r).

(* ------------------------------------------------------------------ *)
(** ** The code block processor *)

Section CodeBlockProcessor.

(** [SVGChessboard] of [./chessboardsvg/index] is outside this file: its
    constructor [fromFEN], its builders [addArrow] and [highlight] and
    its [draw] are parameters.  Each returns or throws; a builder returns
    the board it has changed.  [String_of_number] is [String(n)], which
    the template literal of the view box applies as well.  None of them
    is taken to write to the plugin's settings or to [el]. *)
Variables Board Node : Type.
Variable fromFEN : jsstring -> ObsidianChessSettings -> result Board.
Variable addArrow : Board -> option jsstring -> option jsstring -> result Board.
Variable highlight : Board -> jsstring -> result Board.
Variable draw : Board -> result Node.
Variable String_of_number : Z -> jsstring.

(** The [svg] element the processor creates: the attributes it sets, in
    the order it sets them, its children and [style.display]. *)
Record SvgBlock : Type := mkBlock {
  block_attributes : list (jsstring * jsstring);
  block_children : list Node;
  block_display : jsstring
}.

(** The body of the loop over the parsed annotations: the builder that
    the [type] of the annotation selects. *)
Definition add_annotation (chessboard : Board) (annotation : Annotation)
  : result Board :=
  match annotation with
  | ArrowAnnotation start end_ => addArrow chessboard start end_
  | Highlight square => highlight chessboard square
  end.

(** What a call of the processor leaves behind: the exception when it
    threw, the plugin's settings, and the children of [el]. *)
Record Rendered : Type := mkRendered {
  thrown : option exn;
  setting_after : ObsidianChessSettings;
  el_after : list SvgBlock
}.

(** The closure [draw_chessboard] returns, applied to a source and to an
    element with the children [el], under the settings [setting].  The
    block is attached to [el] by the last statement but one, after
    everything that can throw. *)
Definition draw_chessboard (setting : ObsidianChessSettings) (source : jsstring)
           (el : list SvgBlock) : Rendered :=
  match draw_chessboard_parse setting source with
  | Throw e => mkRendered (Some e) setting el
  | Ok (parsedCode, setting) =>
      match (chessboard <- fromFEN (fen parsedCode) setting ;;
             chessboard <- for_of add_annotation (annotations parsedCode)
                                  chessboard ;;
             draw chessboard) with
      | Throw e => mkRendered (Some e) setting el
      | Ok node =>
          let width := String_of_number (boardWidthPx setting) in
          let block :=
            mkBlock [(lit "viewBox", lit "0 0 " ++ width ++ lit " " ++ width);
                     (lit "width", width);
                     (lit "height", width)]
                    [node] (lit "block") in
          mkRendered None setting (el ++ [block])
      end
  end.

End CodeBlockProcessor.

Arguments mkBlock {Node} _ _ _.
Arguments mkRendered {Node} _ _ _.
Arguments thrown {Node} _.
Arguments setting_after {Node} _.
Arguments el_after {Node} _.
Arguments draw_chessboard {Board Node} _ _ _ _ _ _ _ _.

(** A board that only records the builder calls it receives, in the
    order it receives them; drawing it gives the record. *)
Inductive BoardCall : Type :=
| CallAddArrow (start end_ : option jsstring)
| CallHighlight (square : jsstring).

Definition call_of (a : Annotation) : BoardCall :=
  match a with
  | ArrowAnnotation start end_ => CallAddArrow start end_
  | Highlight square => CallHighlight square
  end.

Definition recording_processor (String_of_number : Z -> jsstring)
  : ObsidianChessSettings -> jsstring -> list (SvgBlock (list BoardCall)) ->
    Rendered (list BoardCall) :=
  draw_chessboard (Board := list BoardCall) (Node := list BoardCall)
    (fun _ _ => Ok [])
    (fun board start end_ => Ok (board ++ [CallAddArrow start end_]))
    (fun board square => Ok (board ++ [CallHighlight square]))
    (fun board => Ok board)
    String_of_number.

(* ------------------------------------------------------------------ *)
(** ** Evaluation on the inputs of the specification *)

Example parse_start_position :
  parseCode (lit "rnbqkbnr/pppppppp/8/8/8/8/PPPPPPPP/RNBQKBNR")
  = Ok (mkParsed (lit "rnbqkbnr/pppppppp/8/8/8/8/PPPPPPPP/RNBQKBNR") [] white).
Proof. vm_compute. reflexivity. Qed.

Example parse_purple :
  parseCode (lit "8/8/8/8/8/8/8/8" ++ NL ++ lit "orientation: purple")
  = Throw (Error (lit "Unknown orientation white")).
Proof. vm_compute. reflexivity. Qed.

Example parse_three_tokens :
  parseCode (lit "fen: 8/8/8/8/8/8/8/8" ++ NL ++ lit "orientation: black"
             ++ NL ++ lit "annotations: He4 Ae2-e4 Xz9")
  = Ok (mkParsed (lit "8/8/8/8/8/8/8/8")
          [Highlight (lit "e4");
           ArrowAnnotation (Some (lit "e2")) (Some (lit "e4"))]
          black).
Proof. vm_compute. reflexivity. Qed.

(* ------------------------------------------------------------------ *)
(** ** Strings: what the string methods compute *)

Section StringFacts.

Lemma eqb_eq (s t : jsstring) : eqb s t = true <-> s = t.
Proof.
  revert t; induction s as [|c s IH]; intros [|d t]; simpl; split;
    try congruence; try reflexivity.
  - intros H. apply andb_true_iff in H as [Hc Hs].
    apply N.eqb_eq in Hc. apply IH in Hs. congruence.
  - intros H; inversion H; subst.
    rewrite N.eqb_refl. simpl. now apply IH.
Qed.

Lemma eqb_refl (s : jsstring) : eqb s s = true.
Proof. now apply eqb_eq. Qed.

Lemma eqb_neq (s t : jsstring) : eqb s t = false <-> s <> t.
Proof.
  split.
  - intros H E. apply eqb_eq in E. congruence.
  - intros H. destruct (eqb s t) eqn:E; [|reflexivity].
    apply eqb_eq in E. contradiction.
Qed.

Lemma startsWith_app (p t : jsstring) : startsWith p (p ++ t) = true.
Proof.
  induction p as [|c p IH]; simpl; [reflexivity|].
  now rewrite N.eqb_refl.
Qed.

Lemma startsWith_split (p s : jsstring) :
  startsWith p s = true -> s = p ++ skipn (List.length p) s.
Proof.
  revert s; induction p as [|c p IH]; intros s H; simpl; [reflexivity|].
  destruct s as [|d s]; simpl in H; [discriminate|].
  apply andb_true_iff in H as [Hc Hs]. apply N.eqb_eq in Hc. subst d.
  simpl. f_equal. now apply IH.
Qed.

Lemma startsWith_iff (p s : jsstring) :
  startsWith p s = true <-> exists t, s = p ++ t.
Proof.
  split.
  - intros H. eexists. now apply startsWith_split.
  - intros [t ->]. apply startsWith_app.
Qed.

(** A string cannot start with two literals that differ in their first
    code unit. *)
Lemma startsWith_first_differs (c d : code_unit) (p q s : jsstring) :
  c <> d -> startsWith (c :: p) s = true -> startsWith (d :: q) s = false.
Proof.
  intros Hcd Hp. destruct s as [|e s]; simpl in *; [reflexivity|].
  apply andb_true_iff in Hp as [Hc _]. apply N.eqb_eq in Hc. subst e.
  destruct (N.eqb d c) eqn:E; [|reflexivity].
  apply N.eqb_eq in E. congruence.
Qed.

(** Replacing a prefix by the empty string strips it. *)
Lemma replace_prefix (p s : jsstring) :
  startsWith p s = true -> replace p (lit "") s = skipn (List.length p) s.
Proof.
  intros H. destruct s as [|c s]; simpl; rewrite H; reflexivity.
Qed.

Lemma trimStart_keeps (c : code_unit) (s : jsstring) :
  is_white_space c = false -> In c s -> In c (trimStart s).
Proof.
  intros Hc. induction s as [|d s IH]; simpl; [tauto|].
  intros [-> | Hin].
  - rewrite Hc. now left.
  - destruct (is_white_space d); [now apply IH | now right].
Qed.

Lemma trim_keeps (c : code_unit) (s : jsstring) :
  is_white_space c = false -> In c s -> In c (trim s).
Proof.
  intros Hc Hin. unfold trim, trimEnd.
  apply in_rev. rewrite rev_involutive.
  apply trimStart_keeps; [assumption|].
  apply -> in_rev. now apply trimStart_keeps.
Qed.

(** A line that starts with a literal whose first code unit is not white
    space is not blank. *)
Lemma startsWith_not_blank (c : code_unit) (p s : jsstring) :
  is_white_space c = false -> startsWith (c :: p) s = true ->
  eqb (trim s) (lit "") = false.
Proof.
  intros Hc H. apply eqb_neq. intros E.
  apply startsWith_split in H.
  assert (Hin : In c s) by (rewrite H; now left).
  apply (trim_keeps _ _ Hc) in Hin. rewrite E in Hin. exact Hin.
Qed.

Lemma cons_first_not_nil (c : code_unit) (parts : list jsstring) :
  cons_first c parts <> [].
Proof. destruct parts; discriminate. Qed.

Lemma split_not_nil (sep : code_unit) (s : jsstring) : split sep s <> [].
Proof.
  destruct s as [|c s]; simpl; [discriminate|].
  destruct (N.eqb c sep); [discriminate | apply cons_first_not_nil].
Qed.

Lemma split_lines_not_nil (s : jsstring) : split_lines s <> [].
Proof.
  destruct s as [|c s]; simpl; [discriminate|].
  destruct (N.eqb c LF); [discriminate|].
  destruct s as [|d s]; [apply cons_first_not_nil|].
  destruct (N.eqb c CR && N.eqb d LF);
    [discriminate | apply cons_first_not_nil].
Qed.

Lemma split_lines_first_rest (input : jsstring) :
  split_lines input = first_line input :: directive_lines input.
Proof.
  unfold first_line, directive_lines.
  pose proof (split_lines_not_nil input) as H.
  destruct (split_lines input); [contradiction | reflexivity].
Qed.

(** The first two pieces of a split, which array destructuring reads. *)
Lemma split_nth0 (sep : code_unit) (s : jsstring) :
  nth_error (split sep s) 0 = Some (before_first sep s).
Proof.
  induction s as [|c s IH]; simpl; [reflexivity|].
  destruct (N.eqb c sep); [reflexivity|].
  destruct (split sep s) as [|p ps]; simpl in *; congruence.
Qed.

Lemma split_nth1 (sep : code_unit) (s : jsstring) :
  nth_error (split sep s) 1
  = option_map (before_first sep) (after_first sep s).
Proof.
  induction s as [|c s IH]; simpl; [reflexivity|].
  destruct (N.eqb c sep).
  - simpl. apply split_nth0.
  - pose proof (split_not_nil sep s) as Hne.
    destruct (split sep s) as [|p ps]; [contradiction|]. exact IH.
Qed.

Lemma after_first_absent (c : code_unit) (s : jsstring) :
  ~ In c s -> after_first c s = None /\ before_first c s = s.
Proof.
  induction s as [|d s IH]; simpl; [tauto|].
  intros H. destruct (N.eqb d c) eqn:E.
  - apply N.eqb_eq in E. tauto.
  - destruct IH as [IH1 IH2]; [tauto|]. rewrite IH1, IH2. tauto.
Qed.

Lemma hd_cons_first (c : code_unit) (parts : list jsstring) :
  hd [] (cons_first c parts) = c :: hd [] parts.
Proof. destruct parts; reflexivity. Qed.

(** The first piece of [split(/\r?\n/)] is the text of the input before
    its first line break. *)
Lemma first_line_is_prefix (input : jsstring) :
  ~ In LF (first_line input)
  /\ exists rest,
       input = first_line input ++ rest
       /\ (rest = [] \/ startsWith [LF] rest = true
           \/ startsWith [CR; LF] rest = true).
Proof.
  unfold first_line. change (lit "") with (@nil code_unit).
  induction input as [|c s IH]; cbn [split_lines].
  - split; [intros [] | exists []; auto].
  - destruct (N.eqb c LF) eqn:Ec.
    + apply N.eqb_eq in Ec. subst c.
      split; [intros [] | exists (LF :: s); auto].
    + assert (Hstep : ~ In LF (c :: hd [] (split_lines s))
                      /\ exists rest,
                           c :: s = (c :: hd [] (split_lines s)) ++ rest
                           /\ (rest = [] \/ startsWith [LF] rest = true
                               \/ startsWith [CR; LF] rest = true)).
      { destruct IH as [Hno (rest & Hs & Hrest)]. split.
        - intros [H | H]; [|contradiction].
          subst c. now rewrite N.eqb_refl in Ec.
        - exists rest. split; [|exact Hrest].
          change (c :: s = c :: (hd [] (split_lines s) ++ rest)).
          f_equal. exact Hs. }
      destruct s as [|d s'].
      * rewrite hd_cons_first. exact Hstep.
      * destruct (N.eqb c CR && N.eqb d LF) eqn:Ecr.
        -- apply andb_true_iff in Ecr as [E1 E2].
           apply N.eqb_eq in E1. apply N.eqb_eq in E2. subst c d.
           split; [intros [] | exists (CR :: LF :: s'); auto].
        -- rewrite hd_cons_first. exact Hstep.
Qed.

End StringFacts.

(* ------------------------------------------------------------------ *)
(** ** The loops of [parseCode] *)

Section ParserFacts.

Lemma for_of_app {A S : Type} (body : S -> A -> result S) (xs ys : list A) (s : S) :
  for_of body (xs ++ ys) s = (s' <- for_of body xs s ;; for_of body ys s').
Proof.
  revert s; induction xs as [|x xs IH]; intros s; simpl; [reflexivity|].
  destruct (body s x); simpl; [apply IH | reflexivity].
Qed.

Lemma orientation_line_not_blank (line : jsstring) :
  is_orientation_line line = true -> eqb (trim line) (lit "") = false.
Proof.
  exact (@startsWith_not_blank 111%N (lit "rientation: ") line eq_refl).
Qed.

Lemma annotations_line_not_blank (line : jsstring) :
  is_annotations_line line = true -> eqb (trim line) (lit "") = false.
Proof.
  exact (@startsWith_not_blank 97%N (lit "nnotations: ") line eq_refl).
Qed.

Lemma orientation_line_not_annotations (line : jsstring) :
  is_orientation_line line = true -> is_annotations_line line = false.
Proof.
  apply (@startsWith_first_differs 111%N 97%N
           (lit "rientation: ") (lit "nnotations: ") line).
  discriminate.
Qed.

Lemma valid_orientation_cases (v : jsstring) :
  valid_orientation v = true <-> v = white \/ v = black.
Proof.
  unfold valid_orientation. rewrite orb_true_iff, !eqb_eq. tauto.
Qed.

Lemma valid_orientation_not_annotations (v : jsstring) :
  valid_orientation v = true -> startsWith (lit "annotations: ") v = false.
Proof.
  intros H. apply valid_orientation_cases in H as [-> | ->]; reflexivity.
Qed.

Lemma startsWith_single (c : code_unit) (s : jsstring) :
  startsWith [c] s = match s with [] => false | d :: _ => N.eqb d c end.
Proof.
  destruct s as [|d s]; [reflexivity|].
  unfold startsWith. now rewrite andb_true_r, N.eqb_sym.
Qed.

(** One token: [push] appends what the token stands for, or nothing. *)
Lemma push_annotation_spec (anns : list Annotation) (token : jsstring) :
  push_annotation anns token = anns ++ option_list (token_annotation token).
Proof.
  unfold push_annotation, token_annotation.
  change (lit "H") with [72%N]. change (lit "A") with [65%N].
  rewrite !startsWith_single.
  destruct token as [|c rest].
  - now rewrite app_nil_r.
  - destruct (N.eqb c 72); [reflexivity|].
    destruct (N.eqb c 65).
    + change (substring 1 (c :: rest)) with rest.
      now rewrite split_nth0, split_nth1.
    + simpl. now rewrite app_nil_r.
Qed.

(** The inner loop: the tokens' annotations are appended left to right. *)
Lemma fold_push_annotation (toks : list jsstring) (anns : list Annotation) :
  fold_left push_annotation toks anns
  = anns ++ flat_map (fun token => option_list (token_annotation token)) toks.
Proof.
  revert anns; induction toks as [|t toks IH]; intros anns; simpl.
  - now rewrite app_nil_r.
  - now rewrite IH, push_annotation_spec, <- app_assoc.
Qed.

(** One iteration of the outer loop. *)
Lemma parse_line_spec (o : jsstring) (anns : list Annotation) (line : jsstring) :
  parse_line (o, anns) line =
  if bad_orientation_line line then
    Throw (Error (lit "Unknown orientation " ++ o))
  else
    Ok (if is_orientation_line line then orientation_value line else o,
        anns ++ line_annotations line).
Proof.
  unfold parse_line, bad_orientation_line, line_annotations.
  destruct (is_orientation_line line) eqn:Hor.
  - rewrite (orientation_line_not_blank _ Hor).
    rewrite (orientation_line_not_annotations _ Hor).
    unfold is_orientation_line in Hor. rewrite Hor.
    rewrite (replace_prefix _ _ Hor).
    change (trim (skipn (List.length (lit "orientation: ")) line))
      with (orientation_value line).
    assert (Hv : negb (eqb (orientation_value line) white)
                 && negb (eqb (orientation_value line) black)
                 = negb (valid_orientation (orientation_value line)))
      by (unfold valid_orientation; now rewrite negb_orb).
    rewrite Hv.
    destruct (valid_orientation (orientation_value line)) eqn:Hval; cbn [negb bind].
    + rewrite (valid_orientation_not_annotations _ Hval).
      now rewrite app_nil_r.
    + reflexivity.
  - cbn [andb]. unfold is_orientation_line in Hor.
    destruct (is_annotations_line line) eqn:Han.
    + rewrite (annotations_line_not_blank _ Han). rewrite Hor. cbn [bind].
      unfold is_annotations_line in Han. rewrite Han.
      rewrite (replace_prefix _ _ Han).
      now rewrite fold_push_annotation.
    + unfold is_annotations_line in Han.
      destruct (eqb (trim line) (lit "")).
      * now rewrite app_nil_r.
      * rewrite Hor. cbn [bind]. rewrite Han. now rewrite app_nil_r.
Qed.

Lemma orientation_values_cons (line : jsstring) (lines : list jsstring) :
  orientation_values (line :: lines)
  = (if is_orientation_line line then [orientation_value line] else [])
    ++ orientation_values lines.
Proof.
  unfold orientation_values. simpl.
  destruct (is_orientation_line line); reflexivity.
Qed.

Lemma orientation_values_app (l1 l2 : list jsstring) :
  orientation_values (l1 ++ l2) = orientation_values l1 ++ orientation_values l2.
Proof. unfold orientation_values. now rewrite filter_app, map_app. Qed.

Lemma last_cons_default {A : Type} (x d : A) (l : list A) :
  last (x :: l) d = last l x.
Proof.
  revert x d; induction l as [|y l IH]; intros x d; [reflexivity|].
  change (last (x :: y :: l) d) with (last (y :: l) d).
  now rewrite (IH y d), (IH y x).
Qed.

(** The outer loop when no line has a bad orientation: it returns, with
    the last orientation value and the annotations in encounter order. *)
Lemma parse_lines_ok (lines : list jsstring) (o : jsstring) (anns : list Annotation) :
  existsb bad_orientation_line lines = false ->
  for_of parse_line lines (o, anns)
  = Ok (last (orientation_values lines) o, anns ++ encounter_order lines).
Proof.
  revert o anns; induction lines as [|l lines IH]; intros o anns H.
  - cbn. now rewrite app_nil_r.
  - cbn [existsb] in H. apply orb_false_iff in H as [Hl Hrest].
    cbn [for_of]. rewrite parse_line_spec, Hl. cbn [bind].
    rewrite (IH _ _ Hrest), orientation_values_cons.
    unfold encounter_order. cbn [flat_map]. rewrite <- app_assoc.
    destruct (is_orientation_line l); cbn [app]; [|reflexivity].
    now rewrite last_cons_default.
Qed.

(** The outer loop at the first line with a bad orientation: it throws,
    and the message carries the orientation in force before that line. *)
Lemma parse_lines_throw (pre post : list jsstring) (line o : jsstring)
      (anns : list Annotation) :
  existsb bad_orientation_line pre = false ->
  bad_orientation_line line = true ->
  for_of parse_line (pre ++ line :: post) (o, anns)
  = Throw (Error (lit "Unknown orientation " ++ last (orientation_values pre) o)).
Proof.
  intros Hpre Hbad.
  rewrite for_of_app, (parse_lines_ok _ _ _ Hpre). cbn [bind for_of].
  now rewrite parse_line_spec, Hbad.
Qed.

(** A list with an element satisfying [f] splits at the first one. *)
Lemma existsb_first {A : Type} (f : A -> bool) (l : list A) :
  existsb f l = true ->
  exists pre x post, l = pre ++ x :: post /\ existsb f pre = false /\ f x = true.
Proof.
  induction l as [|a l IH]; simpl; [discriminate|].
  destruct (f a) eqn:Ha; simpl.
  - intros _. exists [], a, l. simpl. auto.
  - intros H. destruct (IH H) as (pre & x & post & -> & Hpre & Hx).
    exists (a :: pre), x, post. simpl. rewrite Ha. auto.
Qed.

End ParserFacts.

(* ------------------------------------------------------------------ *)
(** ** [parseCode] as a whole *)

Section ParseCodeFacts.

Lemma parseCode_unfold (input : jsstring) :
  parseCode input =
  ('(o, anns) <- for_of parse_line (directive_lines input) (white, []) ;;
   Ok (mkParsed (position_text (first_line input)) anns o)).
Proof.
  unfold parseCode. rewrite (split_lines_first_rest input).
  cbn [nth_error splice1 skipn]. unfold position_text.
  destruct (startsWith (lit "fen: ") (first_line input)) eqn:H;
    [|reflexivity].
  now rewrite (replace_prefix _ _ H).
Qed.

(** Without a bad orientation line [parseCode] returns, and this is what
    it returns. *)
Lemma parseCode_ok (input : jsstring) :
  existsb bad_orientation_line (directive_lines input) = false ->
  parseCode input
  = Ok (mkParsed (position_text (first_line input))
          (encounter_order (directive_lines input))
          (last (orientation_values (directive_lines input)) white)).
Proof.
  intros H. rewrite parseCode_unfold, (parse_lines_ok _ _ _ H). reflexivity.
Qed.

(** With one it throws at the first, reporting the orientation in force. *)
Lemma parseCode_throw (input : jsstring) (pre post : list jsstring) (line : jsstring) :
  directive_lines input = pre ++ line :: post ->
  existsb bad_orientation_line pre = false ->
  bad_orientation_line line = true ->
  parseCode input
  = Throw (Error (lit "Unknown orientation "
                  ++ last (orientation_values pre) white)).
Proof.
  intros Hd Hpre Hbad.
  rewrite parseCode_unfold, Hd, (parse_lines_throw _ _ _ _ _ Hpre Hbad).
  reflexivity.
Qed.

Lemma parseCode_throws_iff (input : jsstring) :
  (exists e, parseCode input = Throw e)
  <-> existsb bad_orientation_line (directive_lines input) = true.
Proof.
  split.
  - intros [e He].
    destruct (existsb bad_orientation_line (directive_lines input)) eqn:H;
      [reflexivity|].
    rewrite (parseCode_ok _ H) in He. discriminate.
  - intros H. destruct (existsb_first _ _ H) as (pre & x & post & Hd & Hpre & Hx).
    eexists. exact (parseCode_throw _ _ _ _ Hd Hpre Hx).
Qed.

Lemma parseCode_returns_inv (input : jsstring) (r : ParsedChessCode) :
  parseCode input = Ok r ->
  existsb bad_orientation_line (directive_lines input) = false.
Proof.
  intros Hr.
  destruct (existsb bad_orientation_line (directive_lines input)) eqn:H;
    [|reflexivity].
  apply parseCode_throws_iff in H as [e He]. congruence.
Qed.

Lemma existsb_false_forall {A : Type} (f : A -> bool) (l : list A) :
  existsb f l = false <-> (forall x, In x l -> f x = false).
Proof.
  induction l as [|a l IH]; simpl.
  - split; [intros _ x [] | reflexivity].
  - rewrite orb_false_iff, IH. split.
    + intros [Ha Hl] x [<- | Hx]; auto.
    + intros H. split; [apply H; now left | intros x Hx; apply H; now right].
Qed.

Lemma encounter_order_app (l1 l2 : list jsstring) :
  encounter_order (l1 ++ l2) = encounter_order l1 ++ encounter_order l2.
Proof. unfold encounter_order. apply flat_map_app. Qed.

Lemma last_orientation_valid (lines : list jsstring) (o : jsstring) :
  existsb bad_orientation_line lines = false ->
  valid_orientation o = true ->
  valid_orientation (last (orientation_values lines) o) = true.
Proof.
  revert o; induction lines as [|l lines IH]; intros o Hok Ho; [exact Ho|].
  cbn [existsb] in Hok. apply orb_false_iff in Hok as [Hl Hrest].
  rewrite orientation_values_cons.
  unfold bad_orientation_line in Hl.
  destruct (is_orientation_line l); cbn [app].
  - rewrite last_cons_default. apply IH; [assumption|].
    cbn [andb] in Hl. now apply negb_false_iff in Hl.
  - now apply IH.
Qed.

(** Whatever the rejected text is, the message of the thrown error is one
    of two strings. *)
Lemma parseCode_throw_message (input : jsstring) (e : exn) :
  parseCode input = Throw e ->
  e = Error (lit "Unknown orientation white")
  \/ e = Error (lit "Unknown orientation black").
Proof.
  intros He.
  assert (H : existsb bad_orientation_line (directive_lines input) = true)
    by (apply parseCode_throws_iff; eauto).
  destruct (existsb_first _ _ H) as (pre & x & post & Hd & Hpre & Hx).
  rewrite (parseCode_throw _ _ _ _ Hd Hpre Hx) in He.
  inversion He; subst e; clear He.
  assert (Hv : valid_orientation (last (orientation_values pre) white) = true)
    by (now apply last_orientation_valid).
  apply valid_orientation_cases in Hv as [-> | ->]; [now left | now right].
Qed.

(** The returned orientation is one of the two values of its type. *)
Lemma parseCode_orientation_valid (input : jsstring) (r : ParsedChessCode) :
  parseCode input = Ok r -> orientation r = white \/ orientation r = black.
Proof.
  intros Hr. pose proof (parseCode_returns_inv _ _ Hr) as Hok.
  rewrite (parseCode_ok _ Hok) in Hr. inversion Hr; subst r; clear Hr.
  cbn [orientation]. apply valid_orientation_cases.
  now apply last_orientation_valid.
Qed.

End ParseCodeFacts.

(* ------------------------------------------------------------------ *)
(** ** Errors *)

(** C1, evaluated.  On the block whose second line is
    [orientation: purple] the parser throws, and the message it builds is
    [Unknown orientation white]: the template interpolates the variable
    [orientation], which still holds the value in force, not the rejected
    text of the line, so [purple] does not occur in the message. *)
Theorem unknown_orientation_message_omits_text :
  let input := lit "8/8/8/8/8/8/8/8" ++ NL ++ lit "orientation: purple" in
  directive_lines input = [lit "orientation: purple"]
  /\ orientation_value (lit "orientation: purple") = lit "purple"
  /\ parseCode input = Throw (Error (lit "Unknown orientation white"))
  /\ includes (lit "purple") (lit "Unknown orientation white") = false.
Proof. vm_compute. repeat split; reflexivity. Qed.

(** C2.  [parseCode] throws exactly when some line after the first starts
    with [orientation: ] and carries a value other than [white] or
    [black]; on every other input it returns.  A token that starts with
    neither [H] nor [A] leaves the annotations as they are, and a line
    that starts with neither prefix leaves the loop variables as they
    are, both without an error. *)
Theorem parseCode_throws_iff_bad_orientation :
  (forall input,
      (exists e, parseCode input = Throw e)
      <-> (exists line, In line (directive_lines input)
                        /\ is_orientation_line line = true
                        /\ valid_orientation (orientation_value line) = false))
  /\ (forall input,
         (forall line, In line (directive_lines input) ->
                       is_orientation_line line = true ->
                       valid_orientation (orientation_value line) = true) ->
         exists r, parseCode input = Ok r)
  /\ (forall anns token,
         startsWith (lit "H") token = false ->
         startsWith (lit "A") token = false ->
         push_annotation anns token = anns)
  /\ (forall vars line,
         eqb (trim line) (lit "") = false ->
         is_orientation_line line = false ->
         is_annotations_line line = false ->
         parse_line vars line = Ok vars).
Proof.
  split; [|split; [|split]].
  - intros input. rewrite parseCode_throws_iff, existsb_exists.
    unfold bad_orientation_line.
    split; intros (line & Hin & H); exists line; split; try assumption.
    + apply andb_true_iff in H as [H1 H2].
      apply negb_true_iff in H2. auto.
    + destruct H as [H1 H2]. now rewrite H1, H2.
  - intros input H. eexists. apply parseCode_ok.
    apply existsb_false_forall. intros line Hin.
    unfold bad_orientation_line.
    destruct (is_orientation_line line) eqn:Hor; [|reflexivity].
    now rewrite (H line Hin Hor).
  - intros anns token HH HA. unfold push_annotation. now rewrite HH, HA.
  - intros [o anns] line _ Hor Han.
    rewrite parse_line_spec. unfold bad_orientation_line, line_annotations.
    now rewrite Hor, Han, app_nil_r.
Qed.

Lemma parseCode_throws_iff_bad_orientation_witness :
  (exists e, parseCode (lit "8/8/8/8/8/8/8/8" ++ NL ++ lit "orientation: White")
             = Throw e)
  /\ (exists r, parseCode (lit "8/8/8/8/8/8/8/8" ++ NL ++ lit "orientation: black"
                           ++ NL ++ lit "note: Sicilian")
                = Ok r)
  /\ push_annotation [Highlight (lit "e4")] (lit "Xz9") = [Highlight (lit "e4")]
  /\ parse_line (black, []) (lit "note: Sicilian") = Ok (black, []).
Proof.
  destruct parseCode_throws_iff_bad_orientation as (Hiff & Hret & Htok & Hline).
  split; [|split; [|split]].
  - apply Hiff. exists (lit "orientation: White").
    split; [left; reflexivity | split; reflexivity].
  - apply Hret. intros line [<- | [<- | []]]; [reflexivity | discriminate].
  - apply Htok; reflexivity.
  - apply Hline; reflexivity.
Defined.

(* ------------------------------------------------------------------ *)
(** ** Annotation tokens *)

(** C3 as stated fails.  For the token [Ae2-e4-e6] the text after the
    first dash is [e4-e6], but the arrow the parser pushes ends at [e4]:
    [split("-")] cuts at every dash and destructuring reads the first two
    pieces. *)
Lemma arrow_end_is_not_all_text_after_first_dash :
  let token := lit "Ae2-e4-e6" in
  startsWith (lit "A") token = true
  /\ before_first DASH (substring 1 token) = lit "e2"
  /\ after_first DASH (substring 1 token) = Some (lit "e4-e6")
  /\ push_annotation [] token
     = [ArrowAnnotation (Some (lit "e2")) (Some (lit "e4"))]
  /\ push_annotation [] token
     <> [ArrowAnnotation (Some (before_first DASH (substring 1 token)))
                         (after_first DASH (substring 1 token))].
Proof.
  vm_compute. repeat split; try reflexivity. discriminate.
Qed.

(** C3, amended.  On a line that starts with [annotations: ] the loop
    variables are updated by pushing, for each piece of the remainder
    split on single spaces, from left to right.  A token that starts with
    [H] pushes a Highlight whose square is everything after the [H].  A
    token that starts with [A] pushes an Arrow whose start is the text
    after the [A] up to its first dash, and whose end is the text between
    that dash and the next one (up to the end of the token when there is
    no other dash), absent when the token has no dash.  No square is
    checked: the statements hold for every token. *)
Theorem annotation_tokens_meaning :
  (forall o anns line,
      is_annotations_line line = true ->
      parse_line (o, anns) line
      = Ok (o, fold_left push_annotation (tokens line) anns))
  /\ (forall anns token,
         startsWith (lit "H") token = true ->
         push_annotation anns token = anns ++ [Highlight (substring 1 token)])
  /\ (forall anns token,
         startsWith (lit "A") token = true ->
         push_annotation anns token
         = anns ++ [ArrowAnnotation
                      (Some (before_first DASH (substring 1 token)))
                      (option_map (before_first DASH)
                                  (after_first DASH (substring 1 token)))]).
Proof.
  split; [|split].
  - intros o anns line Han. rewrite parse_line_spec.
    unfold bad_orientation_line, line_annotations. rewrite Han.
    destruct (is_orientation_line line) eqn:Hor.
    + apply orientation_line_not_annotations in Hor. congruence.
    + cbn [andb]. now rewrite fold_push_annotation.
  - intros anns token H. unfold push_annotation. now rewrite H.
  - intros anns token H. unfold push_annotation. rewrite H.
    assert (HH : startsWith (lit "H") token = false)
      by (revert H; apply (startsWith_first_differs 65%N 72%N [] []);
          discriminate).
    rewrite HH. cbv zeta. now rewrite split_nth0, split_nth1.
Qed.

Lemma annotation_tokens_meaning_witness :
  parse_line (white, []) (lit "annotations: Hz9 Ae2-e4-e6")
  = Ok (white, fold_left push_annotation [lit "Hz9"; lit "Ae2-e4-e6"] [])
  /\ push_annotation [] (lit "Hz9") = [Highlight (lit "z9")]
  /\ push_annotation [] (lit "Ae2-e4-e6")
     = [ArrowAnnotation (Some (lit "e2")) (Some (lit "e4"))].
Proof.
  destruct annotation_tokens_meaning as (Hline & HH & HA).
  split; [|split].
  - apply (Hline white [] (lit "annotations: Hz9 Ae2-e4-e6")). reflexivity.
  - apply (HH [] (lit "Hz9")). reflexivity.
  - apply (HA [] (lit "Ae2-e4-e6")). reflexivity.
Defined.

(** C9.  A token that starts with [A] and has no dash pushes an Arrow
    whose start is the whole text after the [A] and whose end is absent;
    a block with such a token on an annotations line makes [parseCode]
    throw only when some line has a bad orientation, and when it returns
    the arrow is among the annotations. *)
Theorem arrow_without_dash :
  (forall anns token,
      startsWith (lit "A") token = true ->
      ~ In DASH token ->
      push_annotation anns token
      = anns ++ [ArrowAnnotation (Some (substring 1 token)) None])
  /\ (forall input line token,
         In line (directive_lines input) ->
         is_annotations_line line = true ->
         In token (tokens line) ->
         startsWith (lit "A") token = true ->
         ~ In DASH token ->
         ((exists e, parseCode input = Throw e) ->
          exists l, In l (directive_lines input)
                    /\ bad_orientation_line l = true)
         /\ (forall r, parseCode input = Ok r ->
               In (ArrowAnnotation (Some (substring 1 token)) None)
                  (annotations r))).
Proof.
  assert (Htok : forall token,
             startsWith (lit "A") token = true -> ~ In DASH token ->
             token_annotation token
             = Some (ArrowAnnotation (Some (substring 1 token)) None)).
  { intros token HA Hno. destruct token as [|c rest]; [discriminate|].
    change (lit "A") with [65%N] in HA. rewrite startsWith_single in HA.
    unfold token_annotation. rewrite HA.
    destruct (N.eqb c 72) eqn:E72.
    - apply N.eqb_eq in E72. apply N.eqb_eq in HA. congruence.
    - destruct (after_first_absent DASH rest) as [Ha Hb].
      + intros Hin. apply Hno. now right.
      + now rewrite Ha, Hb. }
  split.
  - intros anns token HA Hno.
    now rewrite push_annotation_spec, (Htok token HA Hno).
  - intros input line token Hline Han Hin HA Hno. split.
    + intros Hthrow. apply parseCode_throws_iff in Hthrow.
      apply existsb_exists in Hthrow. exact Hthrow.
    + intros r Hr. pose proof (parseCode_returns_inv _ _ Hr) as Hok.
      rewrite (parseCode_ok _ Hok) in Hr. inversion Hr; subst r; clear Hr.
      cbn [annotations]. unfold encounter_order.
      apply in_flat_map. exists line. split; [assumption|].
      unfold line_annotations. rewrite Han.
      apply in_flat_map. exists token. split; [assumption|].
      rewrite (Htok token HA Hno). now left.
Qed.

Lemma arrow_without_dash_witness :
  let input := lit "8/8/8/8/8/8/8/8" ++ NL ++ lit "annotations: He4 Ae2" in
  let r := mkParsed (lit "8/8/8/8/8/8/8/8")
             [Highlight (lit "e4"); ArrowAnnotation (Some (lit "e2")) None]
             white in
  push_annotation [] (lit "Ae2") = [ArrowAnnotation (Some (lit "e2")) None]
  /\ parseCode input = Ok r
  /\ In (ArrowAnnotation (Some (lit "e2")) None) (annotations r).
Proof.
  intros input r.
  destruct arrow_without_dash as (Htoken & Hblock).
  assert (Hno : ~ In DASH (lit "Ae2")).
  { intros [H | [H | [H | []]]]; discriminate. }
  assert (Hr : parseCode input = Ok r) by reflexivity.
  split; [|split].
  - apply (Htoken [] (lit "Ae2")); [reflexivity | exact Hno].
  - exact Hr.
  - refine (proj2 (Hblock input (lit "annotations: He4 Ae2") (lit "Ae2")
                     _ _ _ _ Hno) r Hr).
    + left; reflexivity.
    + reflexivity.
    + right; left; reflexivity.
    + reflexivity.
Defined.

(** C4.  The line [annotations: He4 Ae2-e4 Xz9] pushes, from any state of
    the loop and without an error, the Highlight of [e4] and then the
    Arrow from [e2] to [e4], and nothing for [Xz9].  A block with that
    line among its directive lines throws exactly when one of the other
    lines has a bad orientation; whenever it returns, the two annotations
    stand, in that order, between those of the lines before and those of
    the lines after. *)
Theorem annotations_line_He4_Ae2e4_Xz9 :
  forall input pre post,
    directive_lines input
    = pre ++ lit "annotations: He4 Ae2-e4 Xz9" :: post ->
    (forall o anns,
        parse_line (o, anns) (lit "annotations: He4 Ae2-e4 Xz9")
        = Ok (o, anns ++ [Highlight (lit "e4");
                          ArrowAnnotation (Some (lit "e2")) (Some (lit "e4"))]))
    /\ ((exists e, parseCode input = Throw e)
        <-> (exists l, In l (pre ++ post) /\ bad_orientation_line l = true))
    /\ (forall r, parseCode input = Ok r ->
          annotations r
          = encounter_order pre
            ++ [Highlight (lit "e4");
                ArrowAnnotation (Some (lit "e2")) (Some (lit "e4"))]
            ++ encounter_order post).
Proof.
  intros input pre post Hd. split; [|split].
  - intros o anns. now rewrite parse_line_spec.
  - rewrite parseCode_throws_iff, Hd, existsb_exists.
    split; intros (l & Hin & Hbad); exists l; split; try assumption.
    + apply in_app_or in Hin as [Hin | [<- | Hin]];
        [apply in_or_app; now left | discriminate | apply in_or_app; now right].
    + apply in_app_or in Hin as [Hin | Hin]; apply in_or_app;
        [now left | right; now right].
  - intros r Hr. pose proof (parseCode_returns_inv _ _ Hr) as Hok.
    rewrite (parseCode_ok _ Hok) in Hr. inversion Hr; subst r; clear Hr.
    cbn [annotations]. rewrite Hd, encounter_order_app. reflexivity.
Qed.

Lemma annotations_line_He4_Ae2e4_Xz9_witness :
  let input := lit "fen: 8/8/8/8/8/8/8/8" ++ NL ++ lit "annotations: Ha1"
               ++ NL ++ lit "annotations: He4 Ae2-e4 Xz9"
               ++ NL ++ lit "annotations: Ah1-h8" in
  let r := mkParsed (lit "8/8/8/8/8/8/8/8")
             [Highlight (lit "a1"); Highlight (lit "e4");
              ArrowAnnotation (Some (lit "e2")) (Some (lit "e4"));
              ArrowAnnotation (Some (lit "h1")) (Some (lit "h8"))]
             white in
  parseCode input = Ok r
  /\ annotations r
     = encounter_order [lit "annotations: Ha1"]
       ++ [Highlight (lit "e4");
           ArrowAnnotation (Some (lit "e2")) (Some (lit "e4"))]
       ++ encounter_order [lit "annotations: Ah1-h8"].
Proof.
  intros input r.
  assert (Hr : parseCode input = Ok r) by reflexivity.
  split; [exact Hr|].
  exact (proj2 (proj2 (annotations_line_He4_Ae2e4_Xz9 input
                         [lit "annotations: Ha1"] [lit "annotations: Ah1-h8"]
                         eq_refl)) r Hr).
Defined.

(** C7.  When [parseCode] returns, its annotations are those of the
    directive lines in encounter order: line by line in the order of the
    lines, and within a line token by token from left to right, so that
    the annotations of an earlier part of the block come before those of
    a later part and those of earlier tokens before those of later
    tokens.  For the tokens [He4 Ae2-e4] the Highlight comes first and
    the Arrow second. *)
Theorem annotations_in_encounter_order :
  (forall input r,
      parseCode input = Ok r ->
      annotations r = encounter_order (directive_lines input))
  /\ (forall earlier later,
         encounter_order (earlier ++ later)
         = encounter_order earlier ++ encounter_order later)
  /\ (forall line left right,
         is_annotations_line line = true ->
         tokens line = left ++ right ->
         line_annotations line
         = fold_left push_annotation left []
           ++ fold_left push_annotation right [])
  /\ parseCode (lit "8/8/8/8/8/8/8/8" ++ NL ++ lit "annotations: He4 Ae2-e4")
     = Ok (mkParsed (lit "8/8/8/8/8/8/8/8")
             [Highlight (lit "e4");
              ArrowAnnotation (Some (lit "e2")) (Some (lit "e4"))]
             white).
Proof.
  split; [|split; [|split]].
  - intros input r Hr. pose proof (parseCode_returns_inv _ _ Hr) as Hok.
    rewrite (parseCode_ok _ Hok) in Hr. now inversion Hr.
  - exact encounter_order_app.
  - intros line left right Han Htok. unfold line_annotations.
    rewrite Han, Htok, flat_map_app, !fold_push_annotation. reflexivity.
  - reflexivity.
Qed.

Lemma annotations_in_encounter_order_witness :
  let input := lit "8/8/8/8/8/8/8/8" ++ NL ++ lit "annotations: Ae2-e4 Ha1"
               ++ NL ++ lit "orientation: black"
               ++ NL ++ lit "annotations: Hh8" in
  let r := mkParsed (lit "8/8/8/8/8/8/8/8")
             [ArrowAnnotation (Some (lit "e2")) (Some (lit "e4"));
              Highlight (lit "a1"); Highlight (lit "h8")]
             black in
  parseCode input = Ok r
  /\ annotations r = encounter_order (directive_lines input)
  /\ line_annotations (lit "annotations: Ae2-e4 Ha1")
     = fold_left push_annotation [lit "Ae2-e4"] []
       ++ fold_left push_annotation [lit "Ha1"] [].
Proof.
  intros input r.
  destruct annotations_in_encounter_order as (Hblock & _ & Hline & _).
  assert (Hr : parseCode input = Ok r) by reflexivity.
  split; [exact Hr | split].
  - exact (Hblock input r Hr).
  - apply (Hline (lit "annotations: Ae2-e4 Ha1") [lit "Ae2-e4"] [lit "Ha1"]);
      reflexivity.
Defined.

(* ------------------------------------------------------------------ *)
(** ** The position line and the orientation *)

(** C5.  When [parseCode] returns, its [fen] is the first line of the
    input without the literal prefix [fen: ] when the line starts with
    it, and the first line as it is otherwise.  The first line is no
    directive line: two inputs with the same lines after the first are
    parsed to the same orientation and annotations whatever their first
    lines are, and a block whose only line is [orientation: purple]
    returns with that line as its [fen].  The first line is the text of
    the input up to its first line break, a line feed or a carriage
    return with a line feed. *)
Theorem fen_is_first_line :
  (forall input r,
      parseCode input = Ok r ->
      fen r = (if startsWith (lit "fen: ") (first_line input)
               then strip (lit "fen: ") (first_line input)
               else first_line input))
  /\ (forall input input' r,
         directive_lines input' = directive_lines input ->
         parseCode input = Ok r ->
         exists r', parseCode input' = Ok r'
                    /\ orientation r' = orientation r
                    /\ annotations r' = annotations r)
  /\ parseCode (lit "orientation: purple")
     = Ok (mkParsed (lit "orientation: purple") [] white)
  /\ (forall input,
         ~ In LF (first_line input)
         /\ exists rest,
              input = first_line input ++ rest
              /\ (rest = [] \/ startsWith [LF] rest = true
                  \/ startsWith [CR; LF] rest = true)).
Proof.
  split; [|split; [|split]]; [| | reflexivity | exact first_line_is_prefix].
  - intros input r Hr. pose proof (parseCode_returns_inv _ _ Hr) as Hok.
    rewrite (parseCode_ok _ Hok) in Hr. now inversion Hr.
  - intros input input' r Hd Hr.
    pose proof (parseCode_returns_inv _ _ Hr) as Hok.
    rewrite (parseCode_ok _ Hok) in Hr. inversion Hr; subst r; clear Hr.
    rewrite <- Hd in Hok. eexists. split; [apply (parseCode_ok _ Hok)|].
    cbn [orientation annotations]. now rewrite Hd.
Qed.

Lemma fen_is_first_line_witness :
  let input := lit "fen: 8/8/8/8/8/8/8/8" ++ NL ++ lit "orientation: black" in
  let input' := lit "annotations: He4" ++ NL ++ lit "orientation: black" in
  let r := mkParsed (lit "8/8/8/8/8/8/8/8") [] black in
  parseCode input = Ok r
  /\ fen r = strip (lit "fen: ") (lit "fen: 8/8/8/8/8/8/8/8")
  /\ exists r', parseCode input' = Ok r'
                /\ orientation r' = orientation r
                /\ annotations r' = annotations r.
Proof.
  intros input input' r.
  destruct fen_is_first_line as (Hfen & Hfirst & _).
  assert (Hr : parseCode input = Ok r) by reflexivity.
  split; [exact Hr | split].
  - exact (Hfen input r Hr).
  - exact (Hfirst input input' r eq_refl Hr).
Defined.

(** C6.  A block with no [orientation: ] line after the first line is
    parsed to orientation [white].  A block whose [orientation: ] lines
    all carry [white] or [black] is parsed to the value of the last of
    them.  The block with the single line
    [rnbqkbnr/pppppppp/8/8/8/8/PPPPPPPP/RNBQKBNR] is parsed to orientation
    [white], no annotation, and that line as [fen]. *)
Theorem orientation_default_and_last :
  (forall input,
      (forall line, In line (directive_lines input) ->
                    is_orientation_line line = false) ->
      exists r, parseCode input = Ok r /\ orientation r = white)
  /\ (forall input before last_line after,
         directive_lines input = before ++ last_line :: after ->
         is_orientation_line last_line = true ->
         (forall line, In line after -> is_orientation_line line = false) ->
         (forall line, In line (directive_lines input) ->
                       is_orientation_line line = true ->
                       valid_orientation (orientation_value line) = true) ->
         exists r, parseCode input = Ok r
                   /\ orientation r = orientation_value last_line)
  /\ parseCode (lit "rnbqkbnr/pppppppp/8/8/8/8/PPPPPPPP/RNBQKBNR")
     = Ok (mkParsed (lit "rnbqkbnr/pppppppp/8/8/8/8/PPPPPPPP/RNBQKBNR")
             [] white).
Proof.
  assert (Hnone : forall lines,
             (forall line, In line lines -> is_orientation_line line = false) ->
             orientation_values lines = []).
  { induction lines as [|l lines IH]; intros H; [reflexivity|].
    rewrite orientation_values_cons, (H l (or_introl eq_refl)).
    apply IH. intros line Hin. apply H. now right. }
  split; [|split].
  - intros input H. eexists. split.
    + apply parseCode_ok. apply existsb_false_forall. intros line Hin.
      unfold bad_orientation_line. now rewrite (H line Hin).
    + cbn [orientation]. now rewrite (Hnone _ H).
  - intros input before last_line after Hd Hor Hafter Hvalid. eexists. split.
    + apply parseCode_ok. apply existsb_false_forall. intros line Hin.
      unfold bad_orientation_line.
      destruct (is_orientation_line line) eqn:E; [|reflexivity].
      now rewrite (Hvalid line Hin E).
    + cbn [orientation].
      rewrite Hd, orientation_values_app, orientation_values_cons, Hor.
      rewrite (Hnone _ Hafter). cbn [app]. apply last_last.
  - reflexivity.
Qed.

Lemma orientation_default_and_last_witness :
  (exists r, parseCode (lit "8/8/8/8/8/8/8/8" ++ NL ++ lit "annotations: He4")
             = Ok r /\ orientation r = white)
  /\ (exists r, parseCode (lit "8/8/8/8/8/8/8/8" ++ NL ++ lit "orientation: black"
                           ++ NL ++ lit "orientation:  white "
                           ++ NL ++ lit "annotations: He4")
                = Ok r
                /\ orientation r = orientation_value (lit "orientation:  white ")).
Proof.
  destruct orientation_default_and_last as (Hdefault & Hlast & _).
  split.
  - apply Hdefault. intros line [<- | []]. reflexivity.
  - apply (Hlast _ [lit "orientation: black"] (lit "orientation:  white ")
             [lit "annotations: He4"]).
    + reflexivity.
    + reflexivity.
    + intros line [<- | []]. reflexivity.
    + intros line [<- | [<- | [<- | []]]]; try reflexivity. discriminate.
Defined.

(* ------------------------------------------------------------------ *)
(** ** Settings *)

(** C8.  When [loadData] resolves to [null] or [undefined], [onload]
    sets the settings to the object whose white square colour is
    [#f0d9b5], whose black square colour is [#b58862] and whose board
    width is 320, with no orientation recorded. *)
Theorem onload_defaults :
  forall loaded,
    loaded = LNull \/ loaded = LUndefined ->
    onload_setting loaded
    = LSettings (mkSettings (lit "#f0d9b5") (lit "#b58862") 320 None).
Proof. intros loaded [-> | ->]; reflexivity. Qed.

Lemma onload_defaults_witness :
  onload_setting LNull
  = LSettings (mkSettings (lit "#f0d9b5") (lit "#b58862") 320 None).
Proof. apply (onload_defaults LNull). left; reflexivity. Defined.

(* ------------------------------------------------------------------ *)
(** ** Splitting and joining *)

Section SplitJoin.

(** Induction that follows the two-unit look-ahead of [split_lines]. *)
Lemma list_ind2 {A : Type} (P : list A -> Prop) :
  P [] -> (forall a, P [a]) ->
  (forall a b l, P l -> P (b :: l) -> P (a :: b :: l)) ->
  forall l, P l.
Proof.
  intros H0 H1 H2 l.
  assert (H : P l /\ forall a, P (a :: l)).
  { induction l as [|b l [IHl IHbl]]; [auto|].
    split; [apply IHbl | intros a; apply H2; auto]. }
  apply H.
Qed.

Lemma cons_first_app (c : code_unit) (xs ys : list jsstring) :
  xs <> [] -> cons_first c (xs ++ ys) = cons_first c xs ++ ys.
Proof. destruct xs; [congruence | reflexivity]. Qed.

(** A separator cuts the split in two. *)
Lemma split_app_sep (sep : code_unit) (a b : jsstring) :
  split sep (a ++ sep :: b) = split sep a ++ split sep b.
Proof.
  induction a as [|c a IH]; cbn [app split].
  - now rewrite N.eqb_refl.
  - destruct (N.eqb c sep); rewrite IH; [reflexivity|].
    apply cons_first_app, split_not_nil.
Qed.

Lemma split_without_sep (sep : code_unit) (s : jsstring) :
  ~ In sep s -> split sep s = [s].
Proof.
  induction s as [|c s IH]; intros H; cbn [split]; [reflexivity|].
  destruct (N.eqb c sep) eqn:E.
  - apply N.eqb_eq in E. subst c. exfalso. apply H. now left.
  - rewrite IH; [reflexivity|]. intros Hin. apply H. now right.
Qed.

Lemma split_pieces_without_sep (sep : code_unit) (s : jsstring) :
  forall p, In p (split sep s) -> ~ In sep p.
Proof.
  induction s as [|c s IH]; cbn [split]; intros p Hp.
  - destruct Hp as [<- | []]. intros [].
  - destruct (N.eqb c sep) eqn:E.
    + destruct Hp as [<- | Hp]; [intros [] | now apply IH].
    + pose proof (split_not_nil sep s) as Hne.
      destruct (split sep s) as [|q qs]; [contradiction|].
      destruct Hp as [<- | Hp].
      * intros [H | H].
        -- subst c. now rewrite N.eqb_refl in E.
        -- revert H. apply IH. now left.
      * apply IH. now right.
Qed.

(** Joining what was split gives the string back. *)
Lemma join_split (sep : code_unit) (s : jsstring) :
  join [sep] (split sep s) = s.
Proof.
  induction s as [|c s IH]; cbn [split]; [reflexivity|].
  destruct (N.eqb c sep) eqn:E.
  - apply N.eqb_eq in E. subst c.
    pose proof (split_not_nil sep s) as Hne.
    destruct (split sep s) as [|q qs]; [contradiction|].
    change (join [sep] ([] :: q :: qs)) with (sep :: join [sep] (q :: qs)).
    now rewrite IH.
  - pose proof (split_not_nil sep s) as Hne.
    destruct (split sep s) as [|q qs]; [contradiction|].
    cbn [cons_first]. rewrite <- IH.
    destruct qs; reflexivity.
Qed.

(** Splitting what was joined gives the pieces back. *)
Lemma split_join (sep : code_unit) (parts : list jsstring) :
  parts <> [] -> (forall p, In p parts -> ~ In sep p) ->
  split sep (join [sep] parts) = parts.
Proof.
  induction parts as [|p ps IH]; intros Hne Hfree; [congruence|].
  destruct ps as [|q qs].
  - cbn [join]. apply split_without_sep. apply Hfree. now left.
  - change (join [sep] (p :: q :: qs)) with (p ++ sep :: join [sep] (q :: qs)).
    rewrite split_app_sep, IH.
    + rewrite split_without_sep; [reflexivity|]. apply Hfree. now left.
    + discriminate.
    + intros r Hr. apply Hfree. now right.
Qed.

End SplitJoin.

(* ------------------------------------------------------------------ *)
(** ** Line breaks *)

Section LineBreaks.

Lemma split_lines_no_line_feed (s : jsstring) :
  no_line_feed s = true -> split_lines s = [s].
Proof.
  unfold no_line_feed.
  induction s as [|c s IH]; intros H; [reflexivity|].
  cbn [forallb] in H. apply andb_true_iff in H as [Hc Hs].
  apply negb_true_iff in Hc. cbn [split_lines]. rewrite Hc, (IH Hs).
  destruct s as [|d s]; [reflexivity|].
  cbn [forallb] in Hs. apply andb_true_iff in Hs as [Hd _].
  apply negb_true_iff in Hd. now rewrite Hd, andb_false_r.
Qed.

(** A carriage return with a line feed cuts the lines in two. *)
Lemma split_lines_app_CRLF (a b : jsstring) :
  split_lines (a ++ CRLF ++ b) = split_lines a ++ split_lines b.
Proof.
  revert b. induction a as [|c|c d l IHl IHdl] using list_ind2; intros b.
  - reflexivity.
  - cbn [app split_lines CRLF].
    destruct (N.eqb c LF); [reflexivity|].
    change (N.eqb CR LF) with false. rewrite andb_false_r.
    change (N.eqb CR CR && N.eqb LF LF) with true. reflexivity.
  - specialize (IHl b). specialize (IHdl b).
    change ((c :: d :: l) ++ CRLF ++ b) with (c :: d :: (l ++ CRLF ++ b)).
    change ((d :: l) ++ CRLF ++ b) with (d :: (l ++ CRLF ++ b)) in IHdl.
    cbn [split_lines].
    cbn [split_lines] in IHdl.
    destruct (N.eqb c LF).
    + now rewrite IHdl.
    + destruct (N.eqb c CR && N.eqb d LF).
      * now rewrite IHl.
      * rewrite IHdl. apply cons_first_app.
        apply (split_lines_not_nil (d :: l)).
Qed.

Lemma ends_with_CR_tail (c d : code_unit) (l : jsstring) :
  ends_with_CR (c :: d :: l) = false ->
  ends_with_CR (d :: l) = false /\ ends_with_CR l = false.
Proof.
  unfold ends_with_CR.
  change (last (c :: d :: l) 0%N) with (last (d :: l) 0%N).
  intros H. split; [exact H|].
  destruct l; [reflexivity | exact H].
Qed.

(** A line feed does, when no carriage return stands before it. *)
Lemma split_lines_app_LF (a b : jsstring) :
  ends_with_CR a = false ->
  split_lines (a ++ NL ++ b) = split_lines a ++ split_lines b.
Proof.
  revert b. induction a as [|c|c d l IHl IHdl] using list_ind2; intros b Hcr.
  - reflexivity.
  - cbn [app split_lines NL].
    destruct (N.eqb c LF); [reflexivity|].
    unfold ends_with_CR in Hcr. cbn [last] in Hcr. rewrite Hcr.
    reflexivity.
  - destruct (ends_with_CR_tail _ _ _ Hcr) as [Hdl Hl].
    specialize (IHl b Hl). specialize (IHdl b Hdl).
    change ((c :: d :: l) ++ NL ++ b) with (c :: d :: (l ++ NL ++ b)).
    change ((d :: l) ++ NL ++ b) with (d :: (l ++ NL ++ b)) in IHdl.
    cbn [split_lines].
    cbn [split_lines] in IHdl.
    destruct (N.eqb c LF).
    + now rewrite IHdl.
    + destruct (N.eqb c CR && N.eqb d LF).
      * now rewrite IHl.
      * rewrite IHdl. apply cons_first_app.
        apply (split_lines_not_nil (d :: l)).
Qed.

(** Lines joined by either line break are split into the same lines. *)
Lemma split_lines_join_CRLF (lines : list jsstring) :
  lines <> [] -> forallb no_line_feed lines = true ->
  split_lines (join CRLF lines) = lines.
Proof.
  induction lines as [|l ls IH]; intros Hne H; [congruence|].
  cbn [forallb] in H. apply andb_true_iff in H as [Hl Hls].
  destruct ls as [|m ms].
  - now apply split_lines_no_line_feed.
  - change (join CRLF (l :: m :: ms)) with (l ++ CRLF ++ join CRLF (m :: ms)).
    rewrite split_lines_app_CRLF, (split_lines_no_line_feed _ Hl), IH;
      [reflexivity | discriminate | exact Hls].
Qed.

Lemma split_lines_join_LF (lines : list jsstring) :
  lines <> [] -> forallb plain_line lines = true ->
  split_lines (join NL lines) = lines.
Proof.
  induction lines as [|l ls IH]; intros Hne H; [congruence|].
  cbn [forallb] in H. apply andb_true_iff in H as [Hl Hls].
  unfold plain_line in Hl. apply andb_true_iff in Hl as [Hlf Hcr].
  apply negb_true_iff in Hcr.
  destruct ls as [|m ms].
  - now apply split_lines_no_line_feed.
  - change (join NL (l :: m :: ms)) with (l ++ NL ++ join NL (m :: ms)).
    rewrite (split_lines_app_LF _ _ Hcr), (split_lines_no_line_feed _ Hlf), IH;
      [reflexivity | discriminate | exact Hls].
Qed.

(** The pieces of [split_lines] hold no line feed. *)
Lemma split_lines_pieces (s : jsstring) :
  forall l, In l (split_lines s) -> ~ In LF l.
Proof.
  induction s as [|c|c d s IHs IHds] using list_ind2; intros l Hl.
  - destruct Hl as [<- | []]. intros [].
  - cbn [split_lines] in Hl. destruct (N.eqb c LF) eqn:E.
    + destruct Hl as [<- | [<- | []]]; intros [].
    + destruct Hl as [<- | []]. intros [H | []]. subst c.
      now rewrite N.eqb_refl in E.
  - cbn [split_lines] in Hl. cbn [split_lines] in IHds.
    destruct (N.eqb c LF) eqn:E.
    + destruct Hl as [<- | Hl]; [intros [] | now apply IHds].
    + destruct (N.eqb c CR && N.eqb d LF).
      * destruct Hl as [<- | Hl]; [intros [] | now apply IHs].
      * pose proof (split_lines_not_nil (d :: s)) as Hne.
        cbn [split_lines] in Hne.
        destruct (if N.eqb d LF then _ else _) as [|q qs]; [contradiction|].
        destruct Hl as [<- | Hl].
        -- intros [H | H].
           ++ subst c. now rewrite N.eqb_refl in E.
           ++ revert H. apply IHds. now left.
        -- apply IHds. now right.
Qed.

End LineBreaks.

(* ------------------------------------------------------------------ *)
(** ** Blocks: line breaks and the order of directives *)

Section Blocks.

(** The loop over the directive lines works on the orientation lines
    and on the annotations lines separately. *)
Lemma parse_lines_by_kind (lines : list jsstring) (o : jsstring)
      (anns : list Annotation) :
  for_of parse_line lines (o, anns)
  = (vars <- for_of parse_line (filter is_orientation_line lines) (o, []) ;;
     Ok (fst vars,
         anns ++ encounter_order (filter is_annotations_line lines))).
Proof.
  revert o anns; induction lines as [|l ls IH]; intros o anns.
  - cbn. now rewrite app_nil_r.
  - cbn [for_of filter]. rewrite parse_line_spec.
    unfold bad_orientation_line, line_annotations.
    destruct (is_orientation_line l) eqn:Hor.
    + rewrite (orientation_line_not_annotations _ Hor).
      cbn [for_of andb]. rewrite parse_line_spec.
      unfold bad_orientation_line, line_annotations.
      rewrite Hor, (orientation_line_not_annotations _ Hor). cbn [andb].
      destruct (valid_orientation (orientation_value l)); cbn [negb bind];
        [|reflexivity].
      rewrite IH. cbn [app]. now rewrite app_nil_r.
    + cbn [andb bind]. rewrite IH.
      destruct (is_annotations_line l) eqn:Han.
      * assert (E : encounter_order (l :: filter is_annotations_line ls)
                    = flat_map (fun token => option_list (token_annotation token))
                        (tokens l)
                      ++ encounter_order (filter is_annotations_line ls)).
        { unfold encounter_order. cbn [flat_map].
          unfold line_annotations at 1. now rewrite Han. }
        now rewrite E, app_assoc.
      * now rewrite app_nil_r.
Qed.

(** X1.  An input without a line feed is a position line and nothing
    else: [parseCode] returns it, without the prefix [fen: ] when it has
    it, with orientation [white] and no annotation, whatever the line
    holds. *)
Theorem single_line_input :
  forall input,
    no_line_feed input = true ->
    parseCode input = Ok (mkParsed (position_text input) [] white).
Proof.
  intros input H. rewrite parseCode_ok.
  - unfold first_line, directive_lines.
    now rewrite (split_lines_no_line_feed _ H).
  - unfold directive_lines. now rewrite (split_lines_no_line_feed _ H).
Qed.

Lemma single_line_input_witness :
  parseCode (lit "fen: annotations: He4 orientation: purple")
  = Ok (mkParsed (lit "annotations: He4 orientation: purple") [] white).
Proof.
  apply (single_line_input (lit "fen: annotations: He4 orientation: purple")).
  reflexivity.
Defined.

Lemma plain_lines_no_line_feed (lines : list jsstring) :
  forallb plain_line lines = true -> forallb no_line_feed lines = true.
Proof.
  rewrite !forallb_forall. intros H l Hl. specialize (H l Hl).
  unfold plain_line in H. now apply andb_true_iff in H as [H _].
Qed.

(** X2.  The line break does not matter: lines joined by carriage return
    and line feed are parsed as the same lines joined by line feed alone,
    thrown errors included. *)
Theorem line_break_independence :
  forall lines,
    lines <> [] ->
    forallb plain_line lines = true ->
    parseCode (join CRLF lines) = parseCode (join NL lines).
Proof.
  intros lines Hne H. unfold parseCode.
  rewrite (split_lines_join_LF _ Hne H).
  now rewrite (split_lines_join_CRLF _ Hne (plain_lines_no_line_feed _ H)).
Qed.

Lemma line_break_independence_witness :
  parseCode (join CRLF [lit "fen: 8/8/8/8/8/8/8/8"; lit "orientation: black";
                        lit "annotations: He4 Ae2-e4"])
  = parseCode (join NL [lit "fen: 8/8/8/8/8/8/8/8"; lit "orientation: black";
                        lit "annotations: He4 Ae2-e4"]).
Proof.
  apply line_break_independence; [discriminate | reflexivity].
Defined.

(** X3.  What a block is parsed to, a thrown error included, depends on
    its first line, on its orientation lines in their order and on its
    annotations lines in their order, and on nothing else: other lines
    may be added or dropped anywhere, and orientation lines may be moved
    across annotations lines. *)
Theorem directives_by_kind :
  forall input input',
    first_line input = first_line input' ->
    filter is_orientation_line (directive_lines input)
    = filter is_orientation_line (directive_lines input') ->
    filter is_annotations_line (directive_lines input)
    = filter is_annotations_line (directive_lines input') ->
    parseCode input = parseCode input'.
Proof.
  intros input input' Hfirst Hor Han.
  rewrite !parseCode_unfold, (parse_lines_by_kind (directive_lines input)),
    (parse_lines_by_kind (directive_lines input')).
  now rewrite Hfirst, Hor, Han.
Qed.

Lemma directives_by_kind_witness :
  parseCode (join NL [lit "8/8/8/8/8/8/8/8"; lit "annotations: He4"; lit "";
                      lit "  orientation: white"; lit "orientation: black";
                      lit "annotations: Ae2-e4"; lit "White to move"])
  = parseCode (join NL [lit "8/8/8/8/8/8/8/8"; lit "orientation: black";
                        lit "annotations: He4"; lit "annotations: Ae2-e4"]).
Proof.
  apply directives_by_kind; reflexivity.
Defined.

(** X4.  The orientation [parseCode] returns is [white] or [black] and
    nothing else, although it is assigned from the text of a line. *)
Theorem returned_orientation_is_white_or_black :
  forall input r,
    parseCode input = Ok r ->
    orientation r = white \/ orientation r = black.
Proof. exact parseCode_orientation_valid. Qed.

Lemma returned_orientation_is_white_or_black_witness :
  let input := lit "8/8/8/8/8/8/8/8" ++ NL ++ lit "orientation: white"
               ++ NL ++ lit "orientation:  black " in
  let r := mkParsed (lit "8/8/8/8/8/8/8/8") [] black in
  parseCode input = Ok r
  /\ (orientation r = white \/ orientation r = black).
Proof.
  intros input r.
  assert (Hr : parseCode input = Ok r) by reflexivity.
  split; [exact Hr|].
  exact (returned_orientation_is_white_or_black input r Hr).
Defined.

(** X5.  [parseCode] throws nothing but its own [Error]: never a
    [TypeError], and the message is [Unknown orientation ] followed by
    [white] or [black]. *)
Theorem thrown_error_shape :
  forall input e,
    parseCode input = Throw e ->
    e = Error (lit "Unknown orientation white")
    \/ e = Error (lit "Unknown orientation black").
Proof. exact parseCode_throw_message. Qed.

Lemma thrown_error_shape_witness :
  let input := lit "8/8/8/8/8/8/8/8" ++ NL ++ lit "orientation: black"
               ++ NL ++ lit "orientation: Black" in
  let e := Error (lit "Unknown orientation black") in
  parseCode input = Throw e
  /\ (e = Error (lit "Unknown orientation white")
      \/ e = Error (lit "Unknown orientation black")).
Proof.
  intros input e.
  assert (He : parseCode input = Throw e) by reflexivity.
  split; [exact He|].
  exact (thrown_error_shape input e He).
Defined.

End Blocks.

(* ------------------------------------------------------------------ *)
(** ** Lines: white space around directives *)

Section WhiteSpace.

Lemma strip_app (p x : jsstring) : strip p (p ++ x) = x.
Proof. unfold strip. induction p as [|c p IH]; [reflexivity | exact IH]. Qed.

Lemma trimStart_white (ws s : jsstring) :
  forallb is_white_space ws = true -> trimStart (ws ++ s) = trimStart s.
Proof.
  induction ws as [|c ws IH]; intros H; [reflexivity|].
  cbn [forallb] in H. apply andb_true_iff in H as [Hc Hws].
  cbn [app trimStart]. rewrite Hc. now apply IH.
Qed.

Lemma trimEnd_white (s ws : jsstring) :
  forallb is_white_space ws = true -> trimEnd (s ++ ws) = trimEnd s.
Proof.
  intros H. unfold trimEnd. rewrite rev_app_distr, trimStart_white;
    [reflexivity|].
  apply forallb_forall. intros c Hc. apply in_rev in Hc.
  revert c Hc. now apply forallb_forall.
Qed.

(** White space around [white] or [black] is trimmed away. *)
Lemma trim_padded_orientation (ws1 ws2 v : jsstring) :
  forallb is_white_space ws1 = true ->
  forallb is_white_space ws2 = true ->
  valid_orientation v = true ->
  trim (ws1 ++ v ++ ws2) = v.
Proof.
  intros H1 H2 Hv. unfold trim. rewrite (trimStart_white _ _ H1).
  apply valid_orientation_cases in Hv as [-> | ->].
  - change (trimStart (white ++ ws2)) with (white ++ ws2).
    now rewrite (trimEnd_white _ _ H2).
  - change (trimStart (black ++ ws2)) with (black ++ ws2).
    now rewrite (trimEnd_white _ _ H2).
Qed.

(** X6.  An orientation line may pad its value with white space, before
    and after: the line sets the orientation to the value, unpadded, and
    pushes nothing. *)
Theorem padded_orientation_accepted :
  forall o anns ws1 ws2 v,
    forallb is_white_space ws1 = true ->
    forallb is_white_space ws2 = true ->
    valid_orientation v = true ->
    parse_line (o, anns) (lit "orientation: " ++ ws1 ++ v ++ ws2)
    = Ok (v, anns).
Proof.
  intros o anns ws1 ws2 v H1 H2 Hv.
  assert (Hor : is_orientation_line (lit "orientation: " ++ ws1 ++ v ++ ws2)
                = true) by apply startsWith_app.
  assert (Hval : orientation_value (lit "orientation: " ++ ws1 ++ v ++ ws2) = v).
  { unfold orientation_value. rewrite strip_app.
    now apply trim_padded_orientation. }
  rewrite parse_line_spec. unfold bad_orientation_line, line_annotations.
  rewrite Hor, Hval, Hv, (orientation_line_not_annotations _ Hor).
  cbn [andb negb]. now rewrite app_nil_r.
Qed.

Lemma padded_orientation_accepted_witness :
  parse_line (white, [Highlight (lit "e4")])
             (lit "orientation: " ++ [9; 32; 160]%N ++ black ++ [32; 13; 12288]%N)
  = Ok (black, [Highlight (lit "e4")]).
Proof.
  apply padded_orientation_accepted; reflexivity.
Defined.

(** X7.  A line that begins with white space is no directive, whatever
    follows: an indented [orientation: ] or [annotations: ] line changes
    nothing and throws nothing. *)
Theorem indented_line_ignored :
  forall vars c rest,
    is_white_space c = true ->
    parse_line vars (c :: rest) = Ok vars.
Proof.
  intros [o anns] c rest Hc.
  assert (Hne : forall d p, is_white_space d = false ->
                            startsWith (d :: p) (c :: rest) = false).
  { intros d p Hd. cbn [startsWith].
    destruct (N.eqb d c) eqn:E; [|reflexivity].
    apply N.eqb_eq in E. subst d. congruence. }
  rewrite parse_line_spec. unfold bad_orientation_line, line_annotations.
  unfold is_orientation_line, is_annotations_line.
  change (lit "orientation: ") with (111%N :: lit "rientation: ").
  change (lit "annotations: ") with (97%N :: lit "nnotations: ").
  rewrite !Hne by reflexivity. cbn [andb]. now rewrite app_nil_r.
Qed.

Lemma indented_line_ignored_witness :
  parse_line (white, []) (32%N :: lit "orientation: purple") = Ok (white, []).
Proof. apply indented_line_ignored. reflexivity. Defined.

(** An annotations line pushes the annotations of its tokens. *)
Lemma parse_annotations_line (o : jsstring) (anns : list Annotation) (x : jsstring) :
  parse_line (o, anns) (lit "annotations: " ++ x)
  = Ok (o, anns ++ flat_map
              (fun token => option_list (token_annotation token))
              (split SPACE x)).
Proof.
  assert (Han : is_annotations_line (lit "annotations: " ++ x) = true)
    by apply startsWith_app.
  rewrite parse_line_spec. unfold bad_orientation_line, line_annotations.
  rewrite Han.
  destruct (is_orientation_line (lit "annotations: " ++ x)) eqn:Hor.
  - apply orientation_line_not_annotations in Hor. congruence.
  - cbn [andb]. unfold tokens. now rewrite strip_app.
Qed.

(** X8.  Empty tokens push nothing, so a doubled space between two
    tokens of an annotations line is as good as a single one. *)
Theorem doubled_space_harmless :
  forall vars a b,
    parse_line vars (lit "annotations: " ++ a ++ [SPACE; SPACE] ++ b)
    = parse_line vars (lit "annotations: " ++ a ++ [SPACE] ++ b).
Proof.
  intros [o anns] a b. rewrite !parse_annotations_line.
  change (a ++ [SPACE; SPACE] ++ b) with (a ++ SPACE :: ([] ++ SPACE :: b)).
  change (a ++ [SPACE] ++ b) with (a ++ SPACE :: b).
  rewrite !split_app_sep, !flat_map_app. reflexivity.
Qed.

End WhiteSpace.

(* ------------------------------------------------------------------ *)
(** ** What the texts of the annotations never hold *)

Section AnnotationTexts.

Lemma in_skipn_in {A : Type} (x : A) (n : nat) (l : list A) :
  In x (skipn n l) -> In x l.
Proof.
  revert l; induction n as [|n IH]; intros [|a l] H; try exact H.
  right. now apply IH.
Qed.

Lemma split_pieces_incl (sep : code_unit) (s p : jsstring) (c : code_unit) :
  In p (split sep s) -> In c p -> In c s.
Proof.
  revert p; induction s as [|d s IH]; cbn [split]; intros p Hp Hc.
  - destruct Hp as [<- | []]. exact Hc.
  - destruct (N.eqb d sep).
    + destruct Hp as [<- | Hp]; [destruct Hc | right; now apply (IH p)].
    + pose proof (split_not_nil sep s) as Hne.
      destruct (split sep s) as [|q qs]; [contradiction|].
      destruct Hp as [<- | Hp].
      * destruct Hc as [<- | Hc]; [now left | right].
        apply (IH q); [now left | exact Hc].
      * right. apply (IH p); [now right | exact Hc].
Qed.

Lemma before_first_incl (sep c : code_unit) (s : jsstring) :
  In c (before_first sep s) -> In c s.
Proof.
  induction s as [|d s IH]; cbn [before_first]; [tauto|].
  destruct (N.eqb d sep); [intros [] |].
  intros [<- | H]; [now left | right; now apply IH].
Qed.

Lemma before_first_free (sep : code_unit) (s : jsstring) :
  ~ In sep (before_first sep s).
Proof.
  induction s as [|d s IH]; cbn [before_first]; [tauto|].
  destruct (N.eqb d sep) eqn:E; [tauto|].
  intros [H | H]; [|contradiction].
  subst d. now rewrite N.eqb_refl in E.
Qed.

Lemma after_first_incl (sep c : code_unit) (s t : jsstring) :
  after_first sep s = Some t -> In c t -> In c s.
Proof.
  induction s as [|d s IH]; cbn [after_first]; [discriminate|].
  destruct (N.eqb d sep).
  - intros H; inversion H; subst. now right.
  - intros H Hc. right. now apply IH.
Qed.

(** Every text of the annotation of a token is cut out of the token and
    holds no dash when it belongs to an arrow. *)
Lemma token_annotation_texts (token : jsstring) (a : Annotation) :
  token_annotation token = Some a ->
  (forall t c, In t (texts a) -> In c t -> In c token)
  /\ (forall s e, a = ArrowAnnotation s e ->
        (exists x, s = Some x /\ ~ In DASH x)
        /\ (forall y, e = Some y -> ~ In DASH y)).
Proof.
  destruct token as [|k rest]; [discriminate|]. cbn [token_annotation].
  destruct (N.eqb k 72).
  - intros H; inversion H; subst a; clear H. split.
    + intros t c [<- | []] Hc. now right.
    + discriminate.
  - destruct (N.eqb k 65); [|discriminate].
    intros H; inversion H; subst a; clear H. split.
    + intros t c Ht Hc. right. cbn [texts option_list app] in Ht.
      destruct Ht as [<- | Ht]; [now apply before_first_incl in Hc|].
      destruct (after_first DASH rest) as [u|] eqn:E; [|destruct Ht].
      destruct Ht as [<- | []].
      apply before_first_incl in Hc. now apply (after_first_incl _ _ _ _ E).
    + intros s e H; inversion H; subst s e; clear H. split.
      * eexists. split; [reflexivity | apply before_first_free].
      * intros y Hy. destruct (after_first DASH rest); [|discriminate].
        inversion Hy; subst y. apply before_first_free.
Qed.

(** Where a returned annotation comes from. *)
Lemma annotation_origin (input : jsstring) (r : ParsedChessCode) (a : Annotation) :
  parseCode input = Ok r -> In a (annotations r) ->
  exists line token,
    In line (split_lines input) /\ In token (tokens line)
    /\ token_annotation token = Some a.
Proof.
  intros Hr Ha. pose proof (parseCode_returns_inv _ _ Hr) as Hok.
  rewrite (parseCode_ok _ Hok) in Hr. inversion Hr; subst r; clear Hr.
  cbn [annotations] in Ha. unfold encounter_order in Ha.
  apply in_flat_map in Ha as (line & Hline & Ha).
  unfold line_annotations in Ha.
  destruct (is_annotations_line line); [|destruct Ha].
  apply in_flat_map in Ha as (token & Htoken & Ha).
  exists line, token. split; [|split; [exact Htoken|]].
  - rewrite split_lines_first_rest. now right.
  - destruct (token_annotation token); [|destruct Ha].
    destruct Ha as [<- | []]. reflexivity.
Qed.

(** X9.  No text of a returned annotation, square, start or end, holds a
    space or a line feed: the lines are cut at line feeds and the tokens
    at spaces before the texts are taken. *)
Theorem annotation_texts_without_space :
  forall input r a t,
    parseCode input = Ok r ->
    In a (annotations r) ->
    In t (texts a) ->
    ~ In SPACE t /\ ~ In LF t.
Proof.
  intros input r a t Hr Ha Ht.
  destruct (annotation_origin _ _ _ Hr Ha) as (line & token & Hline & Htok & Hann).
  destruct (token_annotation_texts _ _ Hann) as [Hincl _].
  split; intros Hc; apply (Hincl t _ Ht) in Hc.
  - revert Hc. apply (split_pieces_without_sep _ _ _ Htok).
  - apply (split_pieces_incl _ _ _ _ Htok) in Hc.
    apply in_skipn_in in Hc. revert Hc. now apply (split_lines_pieces input).
Qed.

Lemma annotation_texts_without_space_witness :
  let input := lit "8/8/8/8/8/8/8/8" ++ NL ++ lit "annotations: Ae2-e4" in
  let a := ArrowAnnotation (Some (lit "e2")) (Some (lit "e4")) in
  parseCode input = Ok (mkParsed (lit "8/8/8/8/8/8/8/8") [a] white)
  /\ ~ In SPACE (lit "e4") /\ ~ In LF (lit "e4").
Proof.
  intros input a.
  assert (Hr : parseCode input = Ok (mkParsed (lit "8/8/8/8/8/8/8/8") [a] white))
    by reflexivity.
  split; [exact Hr|].
  apply (annotation_texts_without_space input _ a (lit "e4") Hr).
  - left; reflexivity.
  - right; left; reflexivity.
Defined.

(** X10.  Every returned arrow has a start, and neither its start nor
    its end holds a dash; only the end can be missing. *)
Theorem arrow_start_present :
  forall input r s e,
    parseCode input = Ok r ->
    In (ArrowAnnotation s e) (annotations r) ->
    (exists x, s = Some x /\ ~ In DASH x)
    /\ (forall y, e = Some y -> ~ In DASH y).
Proof.
  intros input r s e Hr Ha.
  destruct (annotation_origin _ _ _ Hr Ha) as (line & token & _ & _ & Hann).
  destruct (token_annotation_texts _ _ Hann) as [_ Harrow].
  now apply Harrow.
Qed.

Lemma arrow_start_present_witness :
  let input := lit "8/8/8/8/8/8/8/8" ++ NL ++ lit "annotations: A-e4-e5 A" in
  let r := mkParsed (lit "8/8/8/8/8/8/8/8")
             [ArrowAnnotation (Some (lit "")) (Some (lit "e4"));
              ArrowAnnotation (Some (lit "")) None] white in
  parseCode input = Ok r
  /\ (exists x, Some (lit "") = Some x /\ ~ In DASH x)
  /\ ~ In DASH (lit "e4").
Proof.
  intros input r.
  assert (Hr : parseCode input = Ok r) by reflexivity.
  split; [exact Hr|].
  destruct (arrow_start_present input r (Some (lit "")) (Some (lit "e4")) Hr)
    as [Hstart Hend]; [left; reflexivity|].
  split; [exact Hstart | exact (Hend _ eq_refl)].
Defined.

End AnnotationTexts.

(* ------------------------------------------------------------------ *)
(** ** Writing a block and parsing it back *)

Section RoundTrip.

Lemma free_of_not_in (stops : list code_unit) (t : jsstring) (c : code_unit) :
  free_of stops t = true -> In c stops -> ~ In c t.
Proof.
  unfold free_of. rewrite forallb_forall. intros H Hc Hin.
  specialize (H c Hin). apply negb_true_iff in H.
  assert (Hex : existsb (N.eqb c) stops = true)
    by (apply existsb_exists; exists c; split; [exact Hc | apply N.eqb_refl]).
  congruence.
Qed.

Lemma not_in_app {A : Type} (x : A) (l1 l2 : list A) :
  ~ In x l1 -> ~ In x l2 -> ~ In x (l1 ++ l2).
Proof. intros H1 H2 H. apply in_app_or in H. tauto. Qed.

Lemma before_first_app (sep : code_unit) (s e : jsstring) :
  ~ In sep s ->
  before_first sep (s ++ sep :: e) = s
  /\ after_first sep (s ++ sep :: e) = Some e.
Proof.
  induction s as [|c s IH]; intros H; cbn [app before_first after_first].
  - now rewrite N.eqb_refl.
  - destruct (N.eqb c sep) eqn:E.
    + apply N.eqb_eq in E. subst c. exfalso. apply H. now left.
    + destruct IH as [IH1 IH2]; [intros Hin; apply H; now right|].
      now rewrite IH1, IH2.
Qed.

(** A written token is read as the annotation it was written from, and
    holds neither space nor line feed. *)
Lemma token_annotation_show (a : Annotation) :
  writable_annotation a = true ->
  token_annotation (show_annotation a) = Some a
  /\ ~ In SPACE (show_annotation a) /\ ~ In LF (show_annotation a).
Proof.
  destruct a as [square | [s|] [e|]]; cbn [writable_annotation];
    intros H; try discriminate.
  - split; [reflexivity|].
    split; (intros [Hc | Hc]; [discriminate|]; revert Hc;
            apply (free_of_not_in _ _ _ H); cbn; tauto).
  - apply andb_true_iff in H as [Hs He].
    assert (Hd : ~ In DASH s) by (apply (free_of_not_in _ _ _ Hs); cbn; tauto).
    assert (Hde : ~ In DASH e) by (apply (free_of_not_in _ _ _ He); cbn; tauto).
    change (show_annotation (ArrowAnnotation (Some s) (Some e)))
      with (65%N :: s ++ DASH :: e).
    split.
    + cbn [token_annotation]. change (N.eqb 65 72) with false.
      change (N.eqb 65 65) with true. cbv iota.
      destruct (before_first_app DASH s e Hd) as [-> ->].
      cbn [option_map].
      now destruct (after_first_absent DASH e Hde) as [_ ->].
    + split; (intros [Hc | Hc]; [discriminate|]; revert Hc;
              apply not_in_app;
              [apply (free_of_not_in _ _ _ Hs); cbn; tauto
              | intros [Hc | Hc]; [discriminate|]; revert Hc;
                apply (free_of_not_in _ _ _ He); cbn; tauto]).
  - assert (Hd : ~ In DASH s) by (apply (free_of_not_in _ _ _ H); cbn; tauto).
    change (show_annotation (ArrowAnnotation (Some s) None))
      with (65%N :: s ++ []).
    rewrite app_nil_r. split.
    + cbn [token_annotation]. change (N.eqb 65 72) with false.
      change (N.eqb 65 65) with true. cbv iota.
      now destruct (after_first_absent DASH s Hd) as [-> ->].
    + split; (intros [Hc | Hc]; [discriminate|]; revert Hc;
              apply (free_of_not_in _ _ _ H); cbn; tauto).
Qed.

(** The written tokens, joined by spaces, are split and read back. *)
Lemma read_written_tokens (anns : list Annotation) :
  forallb writable_annotation anns = true ->
  flat_map (fun token => option_list (token_annotation token))
    (split SPACE (join [SPACE] (map show_annotation anns)))
  = anns.
Proof.
  intros H. destruct anns as [|a anns]; [reflexivity|].
  rewrite split_join.
  - induction (a :: anns) as [|b l IH]; [reflexivity|].
    cbn [forallb] in H. apply andb_true_iff in H as [Hb Hl].
    cbn [map flat_map].
    destruct (token_annotation_show b Hb) as [-> _].
    cbn [option_list app]. f_equal. now apply IH.
  - discriminate.
  - intros p Hp. apply in_map_iff in Hp as (b & <- & Hb).
    rewrite forallb_forall in H.
    now destruct (token_annotation_show b (H b Hb)) as (_ & Hsp & _).
Qed.

Lemma no_line_feed_iff (s : jsstring) :
  no_line_feed s = true <-> ~ In LF s.
Proof.
  unfold no_line_feed. rewrite forallb_forall. split.
  - intros H Hin. specialize (H LF Hin). discriminate.
  - intros H c Hc. apply negb_true_iff. apply N.eqb_neq.
    intros E. subst c. contradiction.
Qed.

Lemma join_free (c sep : code_unit) (parts : list jsstring) :
  c <> sep -> (forall p, In p parts -> ~ In c p) ->
  ~ In c (join [sep] parts).
Proof.
  intros Hsep. induction parts as [|p ps IH]; intros H; [intros []|].
  destruct ps as [|q qs]; [apply H; now left|].
  change (join [sep] (p :: q :: qs)) with (p ++ sep :: join [sep] (q :: qs)).
  apply not_in_app; [apply H; now left|].
  intros [Hc | Hc]; [congruence|].
  revert Hc. apply IH. intros r Hr. apply H. now right.
Qed.

Lemma last_app_nonempty {A : Type} (l1 l2 : list A) (d : A) :
  l2 <> [] -> last (l1 ++ l2) d = last l2 d.
Proof.
  intros H. induction l1 as [|a l1 IH]; [reflexivity|].
  cbn [app]. destruct (l1 ++ l2) eqn:E.
  - apply app_eq_nil in E as [_ E]. contradiction.
  - rewrite <- IH. reflexivity.
Qed.

(** X11.  Every block the notation can express is read back as it was
    written: writing a position text, an orientation and annotations in
    the notation and parsing the result returns them unchanged. *)
Theorem parse_written_block :
  forall r, writable r = true -> parseCode (show_block r) = Ok r.
Proof.
  intros [f anns o]. unfold writable, show_block. cbn [fen annotations orientation].
  intros H. apply andb_true_iff in H as [H Hanns].
  apply andb_true_iff in H as [Hf Ho].
  unfold plain_line in Hf. apply andb_true_iff in Hf as [Hlf Hcr].
  apply negb_true_iff in Hcr.
  set (l1 := lit "fen: " ++ f).
  set (l2 := lit "orientation: " ++ o).
  set (l3 := lit "annotations: " ++ join [SPACE] (map show_annotation anns)).
  assert (Hl1 : no_line_feed l1 = true).
  { apply no_line_feed_iff, not_in_app.
    - intros Hin. repeat (destruct Hin as [Hin | Hin]; [discriminate|]).
      destruct Hin.
    - now apply no_line_feed_iff. }
  assert (Hl1cr : ends_with_CR l1 = false).
  { unfold ends_with_CR, l1. destruct f as [|c f']; [reflexivity|].
    rewrite last_app_nonempty by discriminate. exact Hcr. }
  assert (Hl2 : no_line_feed l2 = true /\ ends_with_CR l2 = false).
  { unfold l2. apply valid_orientation_cases in Ho as [-> | ->];
      split; reflexivity. }
  assert (Hl3 : no_line_feed l3 = true).
  { apply no_line_feed_iff, not_in_app.
    - intros Hin. repeat (destruct Hin as [Hin | Hin]; [discriminate|]).
      destruct Hin.
    - apply join_free; [discriminate|].
      intros p Hp. apply in_map_iff in Hp as (b & <- & Hb).
      rewrite forallb_forall in Hanns.
      now destruct (token_annotation_show b (Hanns b Hb)) as (_ & _ & Hno). }
  assert (Hsplit : split_lines (join NL [l1; l2; l3]) = [l1; l2; l3]).
  { change (join NL [l1; l2; l3]) with (l1 ++ NL ++ (l2 ++ NL ++ l3)).
    rewrite (split_lines_app_LF _ _ Hl1cr), (split_lines_app_LF _ _ (proj2 Hl2)).
    now rewrite (split_lines_no_line_feed _ Hl1),
      (split_lines_no_line_feed _ (proj1 Hl2)), (split_lines_no_line_feed _ Hl3). }
  assert (Hstep2 : parse_line (white, []) l2 = Ok (o, [])).
  { pose proof (padded_orientation_accepted white [] [] [] o eq_refl eq_refl Ho)
      as Hp.
    cbn [app] in Hp. now rewrite app_nil_r in Hp. }
  assert (Hstep3 : parse_line (o, []) l3 = Ok (o, anns)).
  { unfold l3. rewrite parse_annotations_line. cbn [app].
    now rewrite read_written_tokens. }
  unfold parseCode. rewrite Hsplit. cbn [nth_error splice1 skipn for_of].
  rewrite Hstep2. cbn [bind]. rewrite Hstep3. cbn [bind].
  assert (Hfen : startsWith (lit "fen: ") l1 = true) by apply startsWith_app.
  rewrite Hfen, (replace_prefix _ _ Hfen).
  unfold l1. fold (strip (lit "fen: ") (lit "fen: " ++ f)).
  now rewrite strip_app.
Qed.

Lemma parse_written_block_witness :
  let r := mkParsed (lit "rnbqkbnr/pppppppp/8/8/8/8/PPPPPPPP/RNBQKBNR")
             [Highlight (lit "e4");
              ArrowAnnotation (Some (lit "e2")) (Some (lit "e4"));
              ArrowAnnotation (Some (lit "g1")) None]
             black in
  show_block r
  = lit "fen: rnbqkbnr/pppppppp/8/8/8/8/PPPPPPPP/RNBQKBNR" ++ NL
    ++ lit "orientation: black" ++ NL ++ lit "annotations: He4 Ae2-e4 Ag1"
  /\ parseCode (show_block r) = Ok r.
Proof.
  intros r. split; [reflexivity|].
  apply (parse_written_block r). reflexivity.
Defined.

End RoundTrip.

(* ------------------------------------------------------------------ *)
(** ** Parsed blocks are expressible *)

Section Canonical.

Lemma free_of_intro (stops : list code_unit) (t : jsstring) :
  (forall c, In c stops -> ~ In c t) -> free_of stops t = true.
Proof.
  intros H. unfold free_of. apply forallb_forall. intros c Hc.
  apply negb_true_iff. destruct (existsb (N.eqb c) stops) eqn:E; [|reflexivity].
  apply existsb_exists in E as (d & Hd & Hcd). apply N.eqb_eq in Hcd. subst d.
  exfalso. exact (H c Hd Hc).
Qed.

(** Every annotation [parseCode] returns can be written as a token. *)
Lemma returned_annotations_writable (input : jsstring) (r : ParsedChessCode) :
  parseCode input = Ok r ->
  forallb writable_annotation (annotations r) = true.
Proof.
  intros Hr. apply forallb_forall. intros a Ha.
  assert (Hfree : forall t, In t (texts a) -> ~ In SPACE t /\ ~ In LF t)
    by (intros t Ht; exact (annotation_texts_without_space _ _ _ _ Hr Ha Ht)).
  destruct a as [square | s e]; cbn [writable_annotation].
  - destruct (Hfree square (or_introl eq_refl)) as [Hsp Hlf].
    apply free_of_intro. intros c [<- | [<- | []]]; assumption.
  - destruct (arrow_start_present _ _ _ _ Hr Ha) as [(x & -> & Hx) He].
    destruct (Hfree x (or_introl eq_refl)) as [Hsp Hlf].
    assert (Hfx : free_of [SPACE; LF; DASH] x = true)
      by (apply free_of_intro; intros c [<- | [<- | [<- | []]]]; assumption).
    rewrite Hfx. destruct e as [y|]; [|reflexivity].
    destruct (Hfree y (or_intror (or_introl eq_refl))) as [Hsp' Hlf'].
    specialize (He y eq_refl). cbn [andb].
    apply free_of_intro; intros c [<- | [<- | [<- | []]]]; assumption.
Qed.

(** X12.  Whatever [parseCode] returns can be written in three lines, a
    position line, an orientation line and an annotations line, that
    parse to the same result, provided the position text does not end in
    a carriage return: blank lines, other lines, repeated directives and
    dropped tokens carry nothing the three lines do not. *)
Theorem canonical_block :
  forall input r,
    parseCode input = Ok r ->
    ends_with_CR (fen r) = false ->
    parseCode (show_block r) = Ok r.
Proof.
  intros input r Hr Hcr. apply parse_written_block. unfold writable.
  rewrite (returned_annotations_writable _ _ Hr), andb_true_r.
  apply andb_true_iff. split.
  - unfold plain_line. rewrite Hcr, andb_true_r.
    apply no_line_feed_iff. intros Hin.
    pose proof (parseCode_returns_inv _ _ Hr) as Hok.
    rewrite (parseCode_ok _ Hok) in Hr. inversion Hr; subst r; clear Hr.
    cbn [fen] in Hin. destruct (first_line_is_prefix input) as [Hno _].
    apply Hno. unfold position_text in Hin.
    destruct (startsWith (lit "fen: ") (first_line input)); [|exact Hin].
    now apply in_skipn_in in Hin.
  - apply valid_orientation_cases. exact (parseCode_orientation_valid _ _ Hr).
Qed.

Lemma canonical_block_witness :
  let input := join CRLF [lit "8/8/8/8/8/8/8/8"; lit "annotations: He4  Xz9";
                          lit ""; lit "orientation: white"; lit "see move 12";
                          lit "orientation: black"; lit "annotations: Ae2-e4-e6"] in
  let r := mkParsed (lit "8/8/8/8/8/8/8/8")
             [Highlight (lit "e4");
              ArrowAnnotation (Some (lit "e2")) (Some (lit "e4"))]
             black in
  parseCode input = Ok r
  /\ show_block r
     = lit "fen: 8/8/8/8/8/8/8/8" ++ NL ++ lit "orientation: black" ++ NL
       ++ lit "annotations: He4 Ae2-e4"
  /\ parseCode (show_block r) = Ok r.
Proof.
  intros input r.
  assert (Hr : parseCode input = Ok r) by reflexivity.
  split; [exact Hr | split; [reflexivity|]].
  exact (canonical_block input r Hr eq_refl).
Defined.

End Canonical.

(* ------------------------------------------------------------------ *)
(** ** The code block processor: what a rendering leaves behind *)

Section ProcessorFacts.

Variables Board Node : Type.
Variable fromFEN : jsstring -> ObsidianChessSettings -> result Board.
Variable addArrow : Board -> option jsstring -> option jsstring -> result Board.
Variable highlight : Board -> jsstring -> result Board.
Variable draw : Board -> result Node.
Variable String_of_number : Z -> jsstring.

(** X13.  A block with a bad orientation line is not rendered and leaves
    no trace: the processor throws, the settings and the children of
    [el] stay as they were, whatever the board would have done. *)
Theorem bad_orientation_leaves_no_trace :
  forall setting source el line,
    In line (directive_lines source) ->
    bad_orientation_line line = true ->
    let r := draw_chessboard fromFEN addArrow highlight draw String_of_number
               setting source el in
    thrown r <> None /\ setting_after r = setting /\ el_after r = el.
Proof.
  intros setting source el line Hin Hbad.
  assert (H : exists e, parseCode source = Throw e).
  { apply parseCode_throws_iff, existsb_exists. eauto. }
  destruct H as [e He].
  unfold draw_chessboard, draw_chessboard_parse. rewrite He. cbn.
  repeat split. discriminate.
Qed.

(** X14.  Rendering is all or nothing on [el].  When nothing throws, [el]
    gains exactly one child: an [svg] block with the view box, the width
    and the height of the board width of the settings, whose only child
    is what [draw] returns for the board that [fromFEN] built from the
    parsed position under the settings of that moment and that the
    builders changed, annotation by annotation in their order.  When the
    call throws, [el] keeps its children, and the exception is the one
    of the parser, of [fromFEN], of the builders or of [draw]. *)
Theorem rendering_all_or_nothing :
  forall setting source el,
    let r := draw_chessboard fromFEN addArrow highlight draw String_of_number
               setting source el in
    match thrown r with
    | None =>
        exists parsed board board' node,
          parseCode source = Ok parsed
          /\ fromFEN (fen parsed) (setting_after r) = Ok board
          /\ for_of (add_annotation Board addArrow highlight)
                    (annotations parsed) board = Ok board'
          /\ draw board' = Ok node
          /\ el_after r
             = el ++ [mkBlock
                        [(lit "viewBox",
                          lit "0 0 " ++ String_of_number (boardWidthPx setting)
                          ++ lit " " ++ String_of_number (boardWidthPx setting));
                         (lit "width", String_of_number (boardWidthPx setting));
                         (lit "height", String_of_number (boardWidthPx setting))]
                        [node] (lit "block")]
    | Some e =>
        el_after r = el
        /\ (parseCode source = Throw e
            \/ exists parsed,
                 parseCode source = Ok parsed
                 /\ (fromFEN (fen parsed) (setting_after r) = Throw e
                     \/ exists board,
                          fromFEN (fen parsed) (setting_after r) = Ok board
                          /\ (for_of (add_annotation Board addArrow highlight)
                                     (annotations parsed) board = Throw e
                              \/ exists board',
                                   for_of (add_annotation Board addArrow highlight)
                                          (annotations parsed) board = Ok board'
                                   /\ draw board' = Throw e)))
    end.
Proof.
  intros setting source el. unfold draw_chessboard, draw_chessboard_parse.
  destruct (parseCode source) as [p|e]; cbn [bind]; [|cbn; auto].
  destruct (fromFEN _ _) as [b|e] eqn:Hb; cbn [bind].
  - destruct (for_of _ _ b) as [b'|e] eqn:Hb'; cbn [bind].
    + destruct (draw b') as [node|e] eqn:Hn;
        cbn [thrown el_after setting_after].
      * exists p, b, b', node. repeat split; assumption.
      * split; [reflexivity|]. right. exists p. split; [reflexivity|].
        right. exists b. split; [assumption|].
        right. exists b'. split; assumption.
    + cbn [thrown el_after setting_after].
      split; [reflexivity|]. right. exists p. split; [reflexivity|].
      right. exists b. split; [assumption|]. now left.
  - cbn [thrown el_after setting_after].
    split; [reflexivity|]. right. exists p. split; [reflexivity|]. now left.
Qed.

(** X15.  The parsed orientation is stored in the plugin's settings
    before the board is built: for a block without a bad orientation
    line, the settings hold the last orientation value of the block,
    [white] when it has none, after the call, also when the board
    constructor, a builder or [draw] throws. *)
Theorem orientation_stored_before_board :
  forall setting source el,
    (forall line, In line (directive_lines source) ->
                  bad_orientation_line line = false) ->
    let r := draw_chessboard fromFEN addArrow highlight draw String_of_number
               setting source el in
    setting_orientation (setting_after r)
    = Some (last (orientation_values (directive_lines source)) white).
Proof.
  intros setting source el H.
  apply existsb_false_forall in H.
  unfold draw_chessboard, draw_chessboard_parse.
  rewrite (parseCode_ok _ H). cbn [bind orientation fen annotations].
  destruct (fromFEN _ _) as [b|e]; cbn [bind]; [|reflexivity].
  destruct (for_of _ _ b) as [b'|e]; cbn [bind]; [|reflexivity].
  destruct (draw b') as [node|e]; reflexivity.
Qed.

(** X16.  Rendering the same source again, on the settings and the
    element the first rendering left, ends the same way and leaves the
    same settings; it attaches once more what the first rendering
    attached.  The orientation the first rendering stored does not change
    the second. *)
Theorem rendering_again :
  forall setting source el,
    let r1 := draw_chessboard fromFEN addArrow highlight draw String_of_number
                setting source el in
    let r2 := draw_chessboard fromFEN addArrow highlight draw String_of_number
                (setting_after r1) source (el_after r1) in
    thrown r2 = thrown r1
    /\ setting_after r2 = setting_after r1
    /\ exists new, el_after r1 = el ++ new /\ el_after r2 = el ++ new ++ new.
Proof.
  intros [w b wd so] source el. unfold draw_chessboard, draw_chessboard_parse.
  destruct (parseCode source) as [p|e]; cbn [bind].
  - cbn [whiteSquareColor blackSquareColor boardWidthPx].
    destruct (bind (fromFEN (fen p) (mkSettings w b wd (Some (orientation p))))
                   _) as [node|e] eqn:HB;
      cbn [thrown setting_after el_after whiteSquareColor blackSquareColor
           boardWidthPx]; rewrite HB; cbn [thrown setting_after el_after].
    + repeat split. eexists. split; [reflexivity|]. now rewrite <- app_assoc.
    + repeat split. exists []. now rewrite !app_nil_r.
  - cbn. repeat split. exists []. now rewrite !app_nil_r.
Qed.

End ProcessorFacts.

Lemma bad_orientation_leaves_no_trace_witness :
  let render :=
    draw_chessboard (Board := list Annotation) (Node := list Annotation)
      (fun _ _ => Ok [])
      (fun b s e => Ok (b ++ [ArrowAnnotation s e]))
      (fun b sq => Ok (b ++ [Highlight sq]))
      (fun b => Ok b) (fun _ => lit "320") in
  let source := lit "8/8/8/8/8/8/8/8" ++ NL ++ lit "annotations: He4"
                ++ NL ++ lit "orientation: purple" in
  thrown (render default_settings source []) <> None
  /\ setting_after (render default_settings source []) = default_settings
  /\ el_after (render default_settings source []) = [].
Proof.
  intros render source.
  apply (bad_orientation_leaves_no_trace _ _ _ _ _ _ _ default_settings source []
           (lit "orientation: purple")).
  - right; left; reflexivity.
  - reflexivity.
Defined.

Lemma orientation_stored_before_board_witness :
  let render :=
    draw_chessboard (Board := unit) (Node := unit)
      (fun _ _ => Throw (Error (lit "Invalid FEN")))
      (fun b _ _ => Ok b) (fun b _ => Ok b) (fun b => Ok b)
      (fun _ => lit "320") in
  let source := lit "not a position" ++ NL ++ lit "orientation: black" in
  thrown (render default_settings source []) = Some (Error (lit "Invalid FEN"))
  /\ setting_orientation (setting_after (render default_settings source []))
     = Some black.
Proof.
  intros render source. split; [reflexivity|].
  apply (orientation_stored_before_board _ _ _ _ _ _ _ default_settings source []).
  intros line [<- | []]. reflexivity.
Defined.

(* ------------------------------------------------------------------ *)
(** ** The builder calls *)

Section BuilderCalls.

Lemma recorded_calls (anns : list Annotation) (board : list BoardCall) :
  for_of (add_annotation (list BoardCall)
            (fun board start end_ => Ok (board ++ [CallAddArrow start end_]))
            (fun board square => Ok (board ++ [CallHighlight square])))
         anns board
  = Ok (board ++ map call_of anns).
Proof.
  revert board; induction anns as [|a anns IH]; intros board; cbn [for_of map].
  - now rewrite app_nil_r.
  - destruct a; cbn [add_annotation bind]; rewrite IH, <- app_assoc;
      reflexivity.
Qed.

(** X17.  The board receives one builder call for each annotation of the
    block, in encounter order: [highlight] for a Highlight and [addArrow]
    for an Arrow, an arrow without end passing [undefined] as its end.
    On a board that records its calls, a block without a bad orientation
    line is rendered to the record of exactly these calls. *)
Theorem builder_calls_in_encounter_order :
  forall String_of_number setting source el,
    (forall line, In line (directive_lines source) ->
                  bad_orientation_line line = false) ->
    let r := recording_processor String_of_number setting source el in
    thrown r = None
    /\ exists attributes,
         el_after r
         = el ++ [mkBlock attributes
                    [map call_of (encounter_order (directive_lines source))]
                    (lit "block")].
Proof.
  intros String_of_number setting source el H.
  apply existsb_false_forall in H.
  unfold recording_processor, draw_chessboard, draw_chessboard_parse.
  rewrite (parseCode_ok _ H). cbn [bind fen annotations orientation].
  rewrite recorded_calls. cbn. split; [reflexivity|].
  eexists. reflexivity.
Qed.

Lemma builder_calls_in_encounter_order_witness :
  let source := lit "8/8/8/8/8/8/8/8" ++ NL ++ lit "annotations: Ae2-e4 Xz9 Ag1"
                ++ NL ++ lit "orientation: black"
                ++ NL ++ lit "annotations: He4" in
  let r := recording_processor (fun _ => lit "320") default_settings source [] in
  thrown r = None
  /\ exists attributes,
       el_after r
       = [] ++ [mkBlock attributes
                  [[CallAddArrow (Some (lit "e2")) (Some (lit "e4"));
                    CallAddArrow (Some (lit "g1")) None;
                    CallHighlight (lit "e4")]]
                  (lit "block")].
Proof.
  intros source r.
  apply (builder_calls_in_encounter_order (fun _ => lit "320")
           default_settings source []).
  intros line [<- | [<- | [<- | []]]]; reflexivity.
Defined.

End BuilderCalls.
